(** * Data splitting and distribution for the federated-learning notebooks

    A shallow embedding of [notebooks/utils/data_utils.py]:

    - [split_dataset_indices]: the share computation (the [split_sizes]
      loop) and the slicing of the shuffled index array;
    - [split_and_distribute]: validation, inventory query, shard writing,
      fleet-wide reset and per-client copy, as a function from the answers
      of the outside world to the trace of effects it performs.

    and of [scripts/distribute_splits.py] (module [DistributeSplits]): its
    [main], from the command line and the answers of the outside world to
    the trace of effects and the way the process ends.

    Python integers are unbounded, so counts are [Z] (a share can become
    negative, see [share_vector_short_of_samples]) and lengths are [nat]. *)

From Stdlib Require Import ZArith NArith List Lia String DecimalString Bool Permutation.
Import ListNotations.
Open Scope Z_scope.

(** ** Exceptions and results *)

Inductive exn : Type :=
| ValueError (msg : string)
| OverflowError (msg : string)
| CalledProcessError (stderr : string)
| TimeoutExpired
| JSONDecodeError
| IndexError
| OSError.

Inductive result (A : Type) : Type :=
| Ret (a : A)
| Raise (e : exn).

Arguments Ret {A} a.
Arguments Raise {A} e.

(** ** Split methods *)

Inductive SplitMethod : Type := uniform | linear | square | exponential.

(** The [if/elif] chain on [split_method]; [None] is the [else] branch. *)
Definition parse_split_method (split_method : string) : option SplitMethod :=
  if String.eqb split_method "uniform" then Some uniform
  else if String.eqb split_method "linear" then Some linear
  else if String.eqb split_method "square" then Some square
  else if String.eqb split_method "exponential" then Some exponential
  else None.

Definition recognized (split_method : string) : Prop :=
  split_method = "uniform"%string \/ split_method = "linear"%string \/
  split_method = "square"%string \/ split_method = "exponential"%string.

Definition sumZ (l : list Z) : Z := fold_right Z.add 0 l.

(** [np.linspace(1, num_sites, num=num_sites)]: the values 1, 2, ..., num_sites. *)
Definition linspace (num_sites : nat) : list Z := map Z.of_nat (seq 1 num_sites).

(** The weights of a method.  [uniform], [linear] and [square] have integer
    weights, held exactly by the floating-point array; the weights [e^k] of
    [exponential] are roundings of irrational numbers, or [inf] from
    [e^710] on, and are not given a value here (see [quota]). *)
Inductive weights : Type :=
| Exact (ratio_vec : list Z)
| Floating.

Definition ratio_vec (m : SplitMethod) (num_sites : nat) : weights :=
  match m with
  | uniform => Exact (repeat 1 num_sites)
  | linear => Exact (linspace num_sites)
  | square => Exact (map (fun r => r * r) (linspace num_sites))
  | exponential => Floating
  end.

(** Python's slice [l[start:stop]] (step 1): a negative bound counts from
    the end, and bounds are clipped to [0, len(l)]. *)
Definition slice_bound (len k : Z) : Z :=
  if k <? 0 then Z.max 0 (k + len) else Z.min k len.

Definition py_slice {A : Type} (l : list A) (start stop : Z) : list A :=
  let len := Z.of_nat (List.length l) in
  let lo := slice_bound len start in
  let hi := slice_bound len stop in
  firstn (Z.to_nat (hi - lo)) (skipn (Z.to_nat lo) l).

(** The second loop of [split_dataset_indices]:
    [client_indices.append(indices[current_idx : current_idx + size])]. *)
Fixpoint slice_groups (indices : list nat) (current_idx : Z) (split_sizes : list Z)
  : list (list nat) :=
  match split_sizes with
  | [] => []
  | size :: rest =>
      py_slice indices current_idx (current_idx + size)
        :: slice_groups indices (current_idx + size) rest
  end.

(** The first loop: [iters] iterations remain, the next one is for site [i];
    when none remains the remainder goes to the last site.  [q i] is the
    conversion [int(num_samples * ratio_vec[i] / total_ratio)] of iteration
    [i]: it returns an integer or raises, and an exception ends the loop. *)
Fixpoint share_loop (q : nat -> result Z) (num_sites : Z) (i iters : nat) (left : Z)
  : result (list Z) :=
  match iters with
  | O => Ret [left]
  | S k =>
      match q i with
      | Raise e => Raise e
      | Ret target =>
          let x := Z.max 1 target in
          let x := Z.min x (left - (num_sites - 1 - Z.of_nat i)) in
          match share_loop q num_sites (S i) k (left - x) with
          | Ret split_sizes => Ret (x :: split_sizes)
          | Raise e => Raise e
          end
      end
  end.

(** The list the loop builds from the integers [t i] that the conversions
    return (see [share_loop_returns]). *)
Fixpoint shares (t : nat -> Z) (num_sites : Z) (i iters : nat) (left : Z) : list Z :=
  match iters with
  | O => [left]
  | S k =>
      let x := Z.max 1 (t i) in
      let x := Z.min x (left - (num_sites - 1 - Z.of_nat i)) in
      x :: shares t num_sites (S i) k (left - x)
  end.

(** The integer of a conversion that returned. *)
Definition returned (r : result Z) : Z :=
  match r with
  | Ret z => z
  | Raise _ => 0
  end.

Section Splitting.

(** [int(num_samples * ratio_vec[i] / total_ratio)] for the [exponential]
    method while [ratio_vec[i]] is finite, as a function of [num_samples],
    [num_sites] and [i]: the integer, or the exception of [int] when the
    product or the total has overflowed.  Nothing is assumed about it. *)
Variable exp_quota : nat -> nat -> nat -> result Z.

(** [np.random.shuffle] applied to [np.arange(num_samples)]. *)
Variable shuffle : list nat -> list nat.

(** [int(num_samples * ratio_vec[i] / total_ratio)] for integer weights.
    The floating-point product and total are exact, and truncating the
    rounded quotient gives the integer quotient, as long as the numbers
    stay below 2^53.  The quantities are not negative, so the truncation of
    [int] is [Z.quot]. *)
Definition exact_quota (rv : list Z) (num_samples i : nat) : Z :=
  let total_ratio := sumZ rv in
  Z.quot (Z.of_nat num_samples * nth i rv 0) total_ratio.

(** [int(num_samples * ratio_vec[i] / total_ratio)].  With integer weights
    the conversion returns.  With [exponential], [ratio_vec[i]] is
    [np.exp(i + 1)], which is [inf] from [e^710] on, beyond the largest
    double; the total is then [inf] as well, the quotient is [nan], and
    [int] raises [ValueError]. *)
Definition quota (m : SplitMethod) (num_samples num_sites i : nat) : result Z :=
  match ratio_vec m num_sites with
  | Exact rv => Ret (exact_quota rv num_samples i)
  | Floating =>
      if (710 <=? S i)%nat
      then Raise (ValueError "cannot convert float NaN to integer")
      else exp_quota num_samples num_sites i
  end.

Definition split_sizes (m : SplitMethod) (num_samples num_sites : nat)
  : result (list Z) :=
  share_loop (quota m num_samples num_sites) (Z.of_nat num_sites)
             0 (num_sites - 1) (Z.of_nat num_samples).

(** The share vector of [split_dataset_indices], the [ValueError] of an
    unknown method, or the exception of a conversion. *)
Definition allocate (num_samples num_sites : nat) (split_method : string)
  : result (list Z) :=
  match parse_split_method split_method with
  | Some m => split_sizes m num_samples num_sites
  | None =>
      Raise (ValueError ("Split method '" ++ split_method ++ "' not implemented!")%string)
  end.

(** No conversion of the loop raises. *)
Definition conversions_succeed (m : SplitMethod) (num_samples num_sites : nat) : Prop :=
  forall i, (i < num_sites - 1)%nat -> exists z, quota m num_samples num_sites i = Ret z.

(** The share vector when no conversion raises (see [split_sizes_returns]). *)
Definition share_vector (m : SplitMethod) (num_samples num_sites : nat) : list Z :=
  shares (fun i => returned (quota m num_samples num_sites i)) (Z.of_nat num_sites)
         0 (num_sites - 1) (Z.of_nat num_samples).


Definition split_dataset_indices (num_samples num_sites : nat) (split_method : string)
  : result (list (list nat)) :=
  let indices := shuffle (seq 0 num_samples) in
  match allocate num_samples num_sites split_method with
  | Ret sizes => Ret (slice_groups indices 0 sizes)
  | Raise e => Raise e
  end.

End Splitting.

(** ** The outside world of [split_and_distribute] *)

(** The commands handed to [subprocess.run], by the variable that holds
    them in the source. *)
Inductive command : Type :=
| cmd_inventory (inventory_path : string)
| cmd_delete_dir (inventory_path remote_dest_path : string)
| cmd_create_dir (inventory_path remote_dest_path : string)
| cmd_copy_train (inventory_path client_name src_train_path dest_train_path : string)
| cmd_copy_test (inventory_path client_name src_test_path dest_test_path : string).

(** The lines printed, by the place that prints them. *)
Inductive message : Type :=
| msg_starting
| msg_validating
| msg_train_length_mismatch (len_data len_labels : nat)
| msg_test_length_mismatch (len_data len_labels : nat)
| msg_inventory_not_found (inventory_path : string)
| msg_querying (inventory_path : string)
| msg_group_not_found (inventory_path : string)
| msg_no_hosts
| msg_found_clients (num_sites : nat) (client_names : list string)
| msg_inventory_query_error (stderr : string)
| msg_inventory_parse_error
| msg_creating_splits (temp_dir : string)
| msg_splitting (num_samples num_sites : nat) (split_method : string) (sizes : list Z)
| msg_saved (items : nat) (file_path : string)
| msg_saving_test
| msg_starting_distribution
| msg_deleting (remote_dest_path : string)
| msg_recreating (remote_dest_path : string)
| msg_reset_error (e : exn)
| msg_distributing
| msg_sending (client_name : string)
| msg_copy_error (client_name stderr : string)
| msg_all_distributed
| msg_process_complete.

(** What a shard file holds: rows of the training set, or the whole test set. *)
Inductive shard : Type :=
| train_rows (site_indices : list nat)
| test_full (len_test : nat).

Definition shard_items (s : shard) : nat :=
  match s with
  | train_rows site_indices => List.length site_indices
  | test_full len_test => len_test
  end.

Inductive event : Type :=
| Print (m : message)                       (* print(...) *)
| PrintErr (m : message)                    (* print(..., file=sys.stderr) *)
| Run (c : command)                         (* subprocess.run(c, check=True, ...) *)
| Save (file_path : string) (s : shard)     (* torch.save(..., file_path) *)
| Cleanup (temp_dir : string).              (* leaving the TemporaryDirectory *)

Inductive outcome : Type :=
| Completed
| Raises (e : exn).

(** [json.loads(result.stdout)] of the inventory listing: not JSON at all,
    or a document in which the group [nvflare_clients] may be missing, and
    its key [hosts] too. *)
Inductive inventory_doc : Type :=
| bad_json
| parsed (nvflare_clients : option (option (list string))).

(** The answers of the environment.  The answer to a command depends on the
    command alone. *)
Record world : Type := {
  inventory_exists : string -> bool;     (* Path(inventory_path).exists() *)
  respond : command -> outcome;          (* does subprocess.run return or raise *)
  inventory_stdout : inventory_doc;
  save_outcome : string -> outcome;      (* does torch.save return or raise *)
  temp_dir : string                      (* the TemporaryDirectory created *)
}.

(** ** Programs: a trace of events and a result *)

Definition prog (A : Type) : Type := (list event * result A)%type.

Definition ret {A : Type} (a : A) : prog A := ([], Ret a).

Definition raise {A : Type} (e : exn) : prog A := ([], Raise e).

Definition bind {A B : Type} (p : prog A) (k : A -> prog B) : prog B :=
  match p with
  | (t, Ret a) => let (t', r) := k a in (t ++ t', r)
  | (t, Raise e) => (t, Raise e)
  end.

Definition emit (e : event) : prog unit := ([e], Ret tt).

(** [try: p  except ...: h]; the handler [h] answers [None] for the
    exceptions the [except] clause does not name. *)
Definition try_catch {A : Type} (p : prog A) (h : exn -> option (prog A)) : prog A :=
  match p with
  | (t, Ret a) => (t, Ret a)
  | (t, Raise e) =>
      match h e with
      | Some k => let (t', r) := k in (t ++ t', r)
      | None => (t, Raise e)
      end
  end.

Notation "x <- p ;; k" := (bind p (fun x => k))
  (at level 61, p at next level, right associativity).
Notation "p ;; k" := (bind p (fun _ => k))
  (at level 61, right associativity).

Definition run (w : world) (c : command) : prog unit :=
  match respond w c with
  | Completed => ([Run c], Ret tt)
  | Raises e => ([Run c], Raise e)
  end.

(** [Path(dir) / name] *)
Definition path_join (dir name : string) : string := (dir ++ "/" ++ name)%string.

(** [_save_tensors_to_pt] *)
Definition _save_tensors_to_pt (w : world) (s : shard) (file_path : string) : prog unit :=
  match save_outcome w file_path with
  | Completed => ([Save file_path s; Print (msg_saved (shard_items s) file_path)], Ret tt)
  | Raises e => ([Save file_path s], Raise e)
  end.

(** Whether the body of the function went on to its next statement or
    executed [return]. *)
Inductive flow : Type := Next | Returned.

Section Distribution.

Variable exp_quota : nat -> nat -> nat -> result Z.
Variable shuffle : list nat -> list nat.
Variable w : world.

(** The call [split_dataset_indices(len(train_data), num_sites, split_method)]
    with the line it prints. *)
Definition split_dataset_indices_call (num_samples num_sites : nat) (split_method : string)
  : prog (list (list nat)) :=
  match allocate exp_quota num_samples num_sites split_method with
  | Ret sizes =>
      emit (Print (msg_splitting num_samples num_sites split_method sizes)) ;;
      ret (slice_groups (shuffle (seq 0 num_samples)) 0 sizes)
  | Raise e => raise e
  end.

(** Step 2 once the inventory file is known to exist; [None] when the
    function has returned. *)
Definition query_clients (inventory_path : string) : prog (option (list string)) :=
  emit (Print (msg_querying inventory_path)) ;;
  try_catch
    (run w (cmd_inventory inventory_path) ;;
     match inventory_stdout w with
     | bad_json => raise JSONDecodeError
     | parsed (Some (Some client_names)) =>
         if (List.length client_names =? 0)%nat
         then emit (PrintErr msg_no_hosts) ;; ret None
         else
           emit (Print (msg_found_clients (List.length client_names) client_names)) ;;
           ret (Some client_names)
     | parsed _ =>
         emit (PrintErr (msg_group_not_found inventory_path)) ;; ret None
     end)
    (fun e =>
       match e with
       | CalledProcessError stderr =>
           Some (emit (PrintErr (msg_inventory_query_error stderr)) ;; ret None)
       | JSONDecodeError =>
           Some (emit (PrintErr msg_inventory_parse_error) ;; ret None)
       | _ => None
       end).

Definition train_file_name (client_name : string) : string :=
  (client_name ++ "_train.pt")%string.

(** Step 3a: [for i, client_name in enumerate(client_names)]. *)
Fixpoint save_train_shards (train_indices : list (list nat)) (i : nat)
         (client_names : list string) : prog unit :=
  match client_names with
  | [] => ret tt
  | client_name :: rest =>
      match nth_error train_indices i with
      | None => raise IndexError
      | Some site_indices =>
          _save_tensors_to_pt w (train_rows site_indices)
            (path_join (temp_dir w) (train_file_name client_name)) ;;
          save_train_shards train_indices (S i) rest
      end
  end.

(** Step 4, the fleet-wide reset: [Returned] when the [except Exception]
    handler ran. *)
Definition reset_remote (inventory_path remote_dest_path : string) : prog flow :=
  try_catch
    (emit (Print (msg_deleting remote_dest_path)) ;;
     run w (cmd_delete_dir inventory_path remote_dest_path) ;;
     emit (Print (msg_recreating remote_dest_path)) ;;
     run w (cmd_create_dir inventory_path remote_dest_path) ;;
     ret Next)
    (fun e => Some (emit (PrintErr (msg_reset_error e)) ;; ret Returned)).

Definition copy_train_of (inventory_path remote_dest_path client_name : string) : command :=
  cmd_copy_train inventory_path client_name
    (path_join (temp_dir w) (train_file_name client_name))
    (path_join remote_dest_path (train_file_name client_name)).

Definition copy_test_of (inventory_path remote_dest_path client_name : string) : command :=
  cmd_copy_test inventory_path client_name
    (path_join (temp_dir w) "test_data.pt")
    (path_join remote_dest_path "test_data.pt").

(** The body of [for client_name in client_names] for one client. *)
Definition send_files (inventory_path remote_dest_path client_name : string) : prog unit :=
  emit (Print (msg_sending client_name)) ;;
  try_catch
    (run w (copy_train_of inventory_path remote_dest_path client_name) ;;
     run w (copy_test_of inventory_path remote_dest_path client_name))
    (fun e =>
       match e with
       | CalledProcessError stderr =>
           Some (emit (PrintErr (msg_copy_error client_name stderr)))
       | _ => None
       end).

Fixpoint send_all (inventory_path remote_dest_path : string) (client_names : list string)
  : prog unit :=
  match client_names with
  | [] => ret tt
  | client_name :: rest =>
      send_files inventory_path remote_dest_path client_name ;;
      send_all inventory_path remote_dest_path rest
  end.

(** [with tempfile.TemporaryDirectory() as temp_dir: body]: the directory
    is removed however the body ends. *)
Definition with_temp_dir {A : Type} (body : prog A) : prog A :=
  let (t, r) := body in (t ++ [Cleanup (temp_dir w)], r).

(** [split_and_distribute]; the four data arguments are given by their
    lengths.  The function returns [None] on every path, here [tt]. *)
Definition split_and_distribute
           (len_train_data len_train_labels len_test_data len_test_labels : nat)
           (inventory_path split_method remote_dest_path : string) : prog unit :=
  emit (Print msg_starting) ;;
  emit (Print msg_validating) ;;
  if negb (len_train_data =? len_train_labels)%nat then
    emit (Print (msg_train_length_mismatch len_train_data len_train_labels))
  else if negb (len_test_data =? len_test_labels)%nat then
    emit (Print (msg_test_length_mismatch len_test_data len_test_labels))
  else if negb (inventory_exists w inventory_path) then
    emit (PrintErr (msg_inventory_not_found inventory_path))
  else
    clients <- query_clients inventory_path ;;
    match clients with
    | None => ret tt
    | Some client_names =>
        let num_sites := List.length client_names in
        f <- with_temp_dir
               (emit (Print (msg_creating_splits (temp_dir w))) ;;
                train_indices <-
                  split_dataset_indices_call len_train_data num_sites split_method ;;
                save_train_shards train_indices 0 client_names ;;
                emit (Print msg_saving_test) ;;
                _save_tensors_to_pt w (test_full len_test_data)
                  (path_join (temp_dir w) "test_data.pt") ;;
                emit (Print msg_starting_distribution) ;;
                r <- reset_remote inventory_path remote_dest_path ;;
                match r with
                | Returned => ret Returned
                | Next =>
                    emit (Print msg_distributing) ;;
                    send_all inventory_path remote_dest_path client_names ;;
                    emit (Print msg_all_distributed) ;;
                    ret Next
                end) ;;
        match f with
        | Returned => ret tt
        | Next => emit (Print msg_process_complete)
        end
    end.

End Distribution.

(** ** A concrete world for examples: two clients, no failure *)

Definition calm_world : world := {|
  inventory_exists := fun _ => true;
  respond := fun _ => Completed;
  inventory_stdout := parsed (Some (Some ["site-1"; "site-2"]%string));
  save_outcome := fun _ => Completed;
  temp_dir := "/tmp/t"
|}.

(** An [exponential] quota used where the method is not [exponential], or
    where its value does not matter. *)
Definition no_exp_quota : nat -> nat -> nat -> result Z := fun _ _ _ => Ret 0.

(** The [exponential] quotas of 100 samples for 3 sites:
    100 e^k / (e + e^2 + e^3) is 9.003..., 24.47..., 66.52... for k = 1, 2, 3. *)
Definition exp_quota_100_3 : nat -> nat -> nat -> result Z :=
  fun _ _ i => Ret (nth i [9; 24; 66] 0).

(** ** Properties of share vectors *)

(** The share of site [i] is at most the share of site [i+1]. *)
Definition nondecreasing (v : list Z) : Prop :=
  forall i, (S i < List.length v)%nat -> nth i v 0 <= nth (S i) v 0.


(** The quotas of the first [num_sites] sites, in site order. *)
Definition quotas (q : nat -> Z) (num_sites : nat) : list Z := map q (seq 0 num_sites).


(** ** Properties of traces *)

(** The events of the per-client loop: the line announcing a client, its
    two copy jobs, the diagnostic of a failed copy. *)
Definition transfer_event (e : event) : bool :=
  match e with
  | Run (cmd_copy_train _ _ _ _) => true
  | Run (cmd_copy_test _ _ _ _) => true
  | Print (msg_sending _) => true
  | PrintErr (msg_copy_error _ _) => true
  | _ => false
  end.

Definition copy_job (e : event) : bool :=
  match e with
  | Run (cmd_copy_train _ _ _ _) => true
  | Run (cmd_copy_test _ _ _ _) => true
  | _ => false
  end.

(** Not an event of the per-client loop. *)
Definition quiet (e : event) : Prop := transfer_event e = false.

(** Printing is the only effect. *)
Definition only_prints (e : event) : bool :=
  match e with
  | Print _ => true
  | PrintErr _ => true
  | _ => false
  end.

(** What the run does once the last client has been handled. *)
Fixpoint after_transfer (t : list event) : list event :=
  match t with
  | [] => []
  | e :: t' =>
      if existsb transfer_event t' then after_transfer t'
      else if transfer_event e then t' else e :: t'
  end.

(** A command that returned, or exited with a non-zero status. *)
Definition exits (o : outcome) : Prop :=
  match o with
  | Completed => True
  | Raises (CalledProcessError _) => True
  | Raises _ => False
  end.

(** Both copy jobs of [client_name] return or exit non-zero. *)
Definition copies_exit (w : world) (inventory_path remote_dest_path client_name : string)
  : Prop :=
  exits (respond w (copy_train_of w inventory_path remote_dest_path client_name)) /\
  exits (respond w (copy_test_of w inventory_path remote_dest_path client_name)).

(** A copy job of [client_name] exits non-zero with diagnostic [stderr]:
    the train copy does, or it completes and the test copy does. *)
Definition copy_fails (w : world) (inventory_path remote_dest_path client_name stderr : string)
  : Prop :=
  respond w (copy_train_of w inventory_path remote_dest_path client_name)
  = Raises (CalledProcessError stderr)
  \/
  (respond w (copy_train_of w inventory_path remote_dest_path client_name) = Completed /\
   respond w (copy_test_of w inventory_path remote_dest_path client_name)
   = Raises (CalledProcessError stderr)).

(** The run gets as far as the per-client loop, over the clients
    [client_names] -- the lengths agree, the inventory lists the clients,
    the split returns, the files are written, the reset completes -- and
    there every copy job returns or exits non-zero. *)
Record reaches_transfer (exp_quota : nat -> nat -> nat -> result Z) (w : world)
       (len_train_data len_train_labels len_test_data len_test_labels : nat)
       (inventory_path split_method remote_dest_path : string)
       (client_names : list string) : Prop := {
  rt_train : len_train_data = len_train_labels;
  rt_test : len_test_data = len_test_labels;
  rt_inventory : inventory_exists w inventory_path = true;
  rt_query : respond w (cmd_inventory inventory_path) = Completed;
  rt_stdout : inventory_stdout w = parsed (Some (Some client_names));
  rt_hosts : client_names <> [];
  rt_split : exists sizes,
      allocate exp_quota len_train_data (List.length client_names) split_method
      = Ret sizes;
  rt_save : forall file_path, save_outcome w file_path = Completed;
  rt_delete : respond w (cmd_delete_dir inventory_path remote_dest_path) = Completed;
  rt_create : respond w (cmd_create_dir inventory_path remote_dest_path) = Completed;
  rt_copies : Forall (copies_exit w inventory_path remote_dest_path) client_names
}.

(** The events of one turn of the per-client loop when both copy jobs
    return or exit non-zero. *)
Definition client_events (w : world) (inventory_path remote_dest_path client_name : string)
  : list event :=
  let train := copy_train_of w inventory_path remote_dest_path client_name in
  let test := copy_test_of w inventory_path remote_dest_path client_name in
  [Print (msg_sending client_name); Run train] ++
  match respond w train with
  | Completed =>
      Run test ::
      match respond w test with
      | Raises (CalledProcessError stderr) => [PrintErr (msg_copy_error client_name stderr)]
      | _ => []
      end
  | Raises (CalledProcessError stderr) => [PrintErr (msg_copy_error client_name stderr)]
  | Raises _ => []
  end.

(** Two clients; the train copy to the first one exits non-zero. *)
Definition flaky_world : world := {|
  inventory_exists := fun _ => true;
  respond := fun c =>
    match c with
    | cmd_copy_train _ client_name _ _ =>
        if String.eqb client_name "site-1"
        then Raises (CalledProcessError "UNREACHABLE") else Completed
    | _ => Completed
    end;
  inventory_stdout := parsed (Some (Some ["site-1"; "site-2"]%string));
  save_outcome := fun _ => Completed;
  temp_dir := "/tmp/t"
|}.

(** Two clients; the fleet-wide delete times out. *)
Definition stuck_world : world := {|
  inventory_exists := fun _ => true;
  respond := fun c =>
    match c with
    | cmd_delete_dir _ _ => Raises TimeoutExpired
    | _ => Completed
    end;
  inventory_stdout := parsed (Some (Some ["site-1"; "site-2"]%string));
  save_outcome := fun _ => Completed;
  temp_dir := "/tmp/t"
|}.

(** A program that ends with the events [X] and the result [r], after
    events that are not of the per-client loop. *)
Definition ends_with {A : Type} (X : list event) (r : result A) (p : prog A) : Prop :=
  exists pre, Forall quiet pre /\ p = (pre ++ X, r).

(** The run of the examples: four training samples, three test samples. *)
Definition example_run (w : world) : prog unit :=
  split_and_distribute no_exp_quota (fun l => l) w 4 4 3 3
                       "inventory.ini" "uniform" "/data".

(** The return value or the closing lines tell two runs apart. *)
Definition summary_distinguishes (p1 p2 : prog unit) : Prop :=
  snd p1 <> snd p2 \/ after_transfer (fst p1) <> after_transfer (fst p2).

(** ** More properties of runs *)

(** An event from before the scratch directory exists: printing, or the
    inventory query. *)
Definition early_event (inventory_path : string) (e : event) : Prop :=
  only_prints e = true \/ e = Run (cmd_inventory inventory_path).

(** The run gets as far as the per-client loop, over the clients
    [client_names]; nothing is said of the copy jobs. *)
Record reaches_loop (exp_quota : nat -> nat -> nat -> result Z) (w : world)
       (len_train_data len_train_labels len_test_data len_test_labels : nat)
       (inventory_path split_method remote_dest_path : string)
       (client_names : list string) : Prop := {
  rl_train : len_train_data = len_train_labels;
  rl_test : len_test_data = len_test_labels;
  rl_inventory : inventory_exists w inventory_path = true;
  rl_query : respond w (cmd_inventory inventory_path) = Completed;
  rl_stdout : inventory_stdout w = parsed (Some (Some client_names));
  rl_hosts : client_names <> [];
  rl_split : exists sizes,
      allocate exp_quota len_train_data (List.length client_names) split_method
      = Ret sizes;
  rl_save : forall file_path, save_outcome w file_path = Completed;
  rl_delete : respond w (cmd_delete_dir inventory_path remote_dest_path) = Completed;
  rl_create : respond w (cmd_create_dir inventory_path remote_dest_path) = Completed
}.

(** The file of the training shard of a client, in the scratch directory. *)
Definition shard_path (w : world) (client_name : string) : string :=
  path_join (temp_dir w) (train_file_name client_name).

(** The training shards written during a run, in order: file and rows. *)
Definition train_saves (t : list event) : list (string * list nat) :=
  flat_map (fun e => match e with
                     | Save file_path (train_rows site_indices) => [(file_path, site_indices)]
                     | _ => []
                     end) t.

(** An exception that the handler of the per-client loop does not name. *)
Definition not_a_process_error (e : exn) : Prop :=
  match e with
  | CalledProcessError _ => False
  | _ => True
  end.

(** An exception that the handlers of the inventory query do not name. *)
Definition not_handled_by_query (e : exn) : Prop :=
  match e with
  | CalledProcessError _ => False
  | JSONDecodeError => False
  | _ => True
  end.

(** A world whose file writes succeed, with the scratch directory [/tmp/t]. *)
Definition world_of (inventory_found : bool) (answers : command -> outcome)
           (listing : inventory_doc) : world := {|
  inventory_exists := fun _ => inventory_found;
  respond := answers;
  inventory_stdout := listing;
  save_outcome := fun _ => Completed;
  temp_dir := "/tmp/t"
|}.

(** Three clients; the test copy to the second one times out. *)
Definition slow_world : world :=
  world_of true
    (fun c =>
       match c with
       | cmd_copy_test _ client_name _ _ =>
           if String.eqb client_name "site-2" then Raises TimeoutExpired else Completed
       | _ => Completed
       end)
    (parsed (Some (Some ["site-1"; "site-2"; "site-3"]%string))).

(** A command that changes the clients: the reset, or a copy. *)
Definition remote_change (e : event) : bool :=
  match e with
  | Run (cmd_delete_dir _ _) => true
  | Run (cmd_create_dir _ _) => true
  | Run (cmd_copy_train _ _ _ _) => true
  | Run (cmd_copy_test _ _ _ _) => true
  | _ => false
  end.

(** Two clients; writing the shard of the second one raises. *)
Definition full_disk_world : world := {|
  inventory_exists := fun _ => true;
  respond := fun _ => Completed;
  inventory_stdout := parsed (Some (Some ["site-1"; "site-2"]%string));
  save_outcome := fun file_path =>
    if String.eqb file_path "/tmp/t/site-2_train.pt" then Raises OSError else Completed;
  temp_dir := "/tmp/t"
|}.

(** ** The script [distribute_splits.py] *)

Module DistributeSplits.

Definition SIZE_TOTAL : N := 11000000.
Definition SIZE_VALID : N := 1000000.
Definition SITE_NAME_PREFIX : string := "site-".
Definition PREPARE_SCRIPT_PATH : string := "utils/prepare_data_split.py".
Definition LOCAL_OUTPUT_DIR : string := "/tmp/nvflare/random_forest/HIGGS/data_splits".

(** [str(n)] of a number that is not negative. *)
Definition str_nat (n : nat) : string := NilEmpty.string_of_uint (Nat.to_uint n).
Definition str_N (n : N) : string := NilEmpty.string_of_uint (N.to_uint n).

(** The result of [parser.parse_args()]. *)
Record args : Type := {
  data_path : string;
  split_method : string;
  inventory : string;
  remote_dest : string
}.

(** What [config.read(args.inventory)] makes of the file: [configparser]
    raises, or there is a configuration, in which the section
    [nvflare_clients], when present, has these keys. *)
Inductive config : Type :=
| unreadable
| sections (nvflare_clients : option (list string)).

(** What [parser.parse_args()] makes of the command line: the arguments;
    or, for [-h], the help and [sys.exit(0)]; or, for a command line that
    lacks a required option or names a split method that is not among the
    choices, the usage and [sys.exit(2)]. *)
Inductive command_line : Type :=
| arguments (a : args)
| help_requested
| usage_error.

Inductive line : Type :=
| say_help
| say_usage
| say_parsing (inventory : string)
| say_inventory_not_found (inventory : string)
| say_group_not_found (inventory : string)
| say_found (site_num : nat)
| say_starting_generation
| say_generating_in (local_split_dir : string)
| say_generated
| say_generation_error
| say_starting_distribution
| say_ensuring_directory
| say_copying (local_split_dir remote_dest : string)
| say_ansible_output
| say_distributed
| say_distribution_error (stderr : string).

Inductive event : Type :=
| Out (l : line)                  (* print(...) *)
| Err (l : line)                  (* print(..., file=sys.stderr) *)
| Makedirs (path : string)        (* os.makedirs(path, exist_ok=True) *)
| Exec (argv : list string).      (* subprocess.run(argv, check=True, ...) *)

(** How the process ends: [main] returns, [sys.exit(code)], an exception
    of [subprocess] or [os] that nothing catches, or one of
    [configparser]. *)
Inductive ending : Type :=
| Finished
| Exit (code : nat)
| Uncaught (e : exn)
| ConfigError.

Record env : Type := {
  file_exists : string -> bool;       (* Path(...).exists() *)
  read_config : string -> config;
  makedirs : string -> bool;          (* os.makedirs returns, or raises OSError *)
  exec : list string -> outcome
}.

Definition local_split_dir (a : args) (site_num : nat) : string :=
  path_join LOCAL_OUTPUT_DIR (str_nat site_num ++ "_" ++ split_method a)%string.

Definition cmd_generate (a : args) (site_num : nat) : list string :=
  ["python3"; PREPARE_SCRIPT_PATH;
   "--data_path"; data_path a;
   "--site_num"; str_nat site_num;
   "--size_total"; str_N SIZE_TOTAL;
   "--size_valid"; str_N SIZE_VALID;
   "--split_method"; split_method a;
   "--out_path"; local_split_dir a site_num;
   "--site_name_prefix"; SITE_NAME_PREFIX]%string.

Definition cmd_mkdir (a : args) : list string :=
  ["ansible"; "-i"; inventory a; "nvflare_clients"; "-m"; "file";
   "-a"; "path=" ++ remote_dest a ++ " state=directory mode=0755"]%string.

Definition cmd_copy (a : args) (site_num : nat) : list string :=
  ["ansible"; "-i"; inventory a; "nvflare_clients"; "-m"; "copy";
   "-a"; "src=" ++ local_split_dir a site_num ++ "/ dest=" ++ remote_dest a
         ++ " mode=0644"]%string.

(** Step 3 of [main]: the [try] block around the two [ansible] commands. *)
Definition distribute (w : env) (a : args) (site_num : nat) : list event * ending :=
  let t := [Out say_starting_distribution; Out say_ensuring_directory;
            Exec (cmd_mkdir a)] in
  match exec w (cmd_mkdir a) with
  | Raises (CalledProcessError stderr) =>
      (t ++ [Err (say_distribution_error stderr)], Exit 1)
  | Raises e => (t, Uncaught e)
  | Completed =>
      let t := t ++ [Out (say_copying (local_split_dir a site_num) (remote_dest a));
                     Exec (cmd_copy a site_num)] in
      match exec w (cmd_copy a site_num) with
      | Raises (CalledProcessError stderr) =>
          (t ++ [Err (say_distribution_error stderr)], Exit 1)
      | Raises e => (t, Uncaught e)
      | Completed => (t ++ [Out say_ansible_output; Out say_distributed], Finished)
      end
  end.

(** Step 2 of [main]: the local directory and the generator script. *)
Definition generate (w : env) (a : args) (site_num : nat) : list event * ending :=
  let t := [Out say_starting_generation; Makedirs (local_split_dir a site_num)] in
  if negb (makedirs w (local_split_dir a site_num)) then (t, Uncaught OSError)
  else
    let t := t ++ [Out (say_generating_in (local_split_dir a site_num));
                   Exec (cmd_generate a site_num)] in
    match exec w (cmd_generate a site_num) with
    | Raises (CalledProcessError _) => (t ++ [Err say_generation_error], Exit 1)
    | Raises e => (t, Uncaught e)
    | Completed =>
        let (t', r) := distribute w a site_num in
        (t ++ Out say_generated :: t', r)
    end.

(** [main] once [parser.parse_args()] has returned [a]. *)
Definition main (w : env) (a : args) : list event * ending :=
  let t := [Out (say_parsing (inventory a))] in
  if negb (file_exists w (inventory a)) then
    (t ++ [Err (say_inventory_not_found (inventory a))], Exit 1)
  else
    match read_config w (inventory a) with
    | unreadable => (t, ConfigError)
    | sections None => (t ++ [Err (say_group_not_found (inventory a))], Exit 1)
    | sections (Some clients) =>
        let site_num := List.length clients in
        let (t', r) := generate w a site_num in
        (t ++ Out (say_found site_num) :: t', r)
    end.

(** [main], from the command line. *)
Definition main_of (cl : command_line) (w : env) : list event * ending :=
  match cl with
  | arguments a => main w a
  | help_requested => ([Out say_help], Exit 0)
  | usage_error => ([Err say_usage], Exit 2)
  end.

(** Printing is the only effect. *)
Definition only_says (e : event) : bool :=
  match e with
  | Out _ => true
  | Err _ => true
  | _ => false
  end.

(** The command line and a world of the examples. *)
Definition example_args : args := {|
  data_path := "/data/HIGGS.csv";
  split_method := "uniform";
  inventory := "inventory.ini";
  remote_dest := "/tmp/splits"
|}.

Definition world_with (found : bool) (c : config) (answers : list string -> outcome) : env := {|
  file_exists := fun _ => found;
  read_config := fun _ => c;
  makedirs := fun _ => true;
  exec := answers
|}.

(** The inventory has no section [nvflare_clients]. *)
Definition no_group_world : env :=
  world_with true (sections None) (fun _ => Completed).

(** Two keys in the section; every command returns. *)
Definition ready_world : env :=
  world_with true (sections (Some ["site-1"; "site-2"]%string)) (fun _ => Completed).

End DistributeSplits.

(* ================================================================== *)
(** * Theorems *)
(* ================================================================== *)

(** ** The share loop, for any conversions *)

Lemma shares_length q M iters : forall i left,
  List.length (shares q M i iters left) = S iters.
Proof.
  induction iters as [|k IH]; intros i left; simpl; [reflexivity|].
  now rewrite IH.
Qed.

Lemma shares_sum q M iters : forall i left,
  sumZ (shares q M i iters left) = left.
Proof.
  induction iters as [|k IH]; intros i left; simpl.
  - lia.
  - rewrite IH. lia.
Qed.

(** While at least one sample per remaining site is left, every share is
    at least 1. *)
Lemma shares_floor q M iters : forall i left,
  M = Z.of_nat i + Z.of_nat iters + 1 ->
  Z.of_nat iters + 1 <= left ->
  Forall (fun x => 1 <= x) (shares q M i iters left).
Proof.
  induction iters as [|k IH]; intros i left HM Hleft; simpl.
  - constructor; [lia | constructor].
  - constructor; [lia|].
    apply IH; lia.
Qed.

(** With one sample less than that, no share is negative. *)
Lemma shares_nonneg q M iters : forall i left,
  M = Z.of_nat i + Z.of_nat iters + 1 ->
  Z.of_nat iters <= left ->
  Forall (fun x => 0 <= x) (shares q M i iters left).
Proof.
  induction iters as [|k IH]; intros i left HM Hleft; simpl.
  - constructor; [lia | constructor].
  - constructor; [lia|].
    apply IH; lia.
Qed.

(** With exactly one sample per remaining site, every share is 1. *)
Lemma shares_ones q M iters : forall i left,
  M = Z.of_nat i + Z.of_nat iters + 1 ->
  left = Z.of_nat iters + 1 ->
  shares q M i iters left = repeat 1 (S iters).
Proof.
  induction iters as [|k IH]; intros i left HM Hleft.
  - simpl. f_equal. lia.
  - cbn [shares].
    assert (Hx : Z.min (Z.max 1 (q i)) (left - (M - 1 - Z.of_nat i)) = 1) by lia.
    rewrite Hx. change (repeat 1 (S (S k))) with (1 :: repeat 1 (S k)).
    f_equal. apply IH; lia.
Qed.

(** The last site gets what the others left. *)
Lemma shares_last q M iters : forall i left,
  last (shares q M i iters left) 0
  = left - sumZ (firstn iters (shares q M i iters left)).
Proof.
  induction iters as [|k IH]; intros i left.
  - simpl. lia.
  - cbn [shares].
    set (x := Z.min (Z.max 1 (q i)) (left - (M - 1 - Z.of_nat i))).
    specialize (IH (S i) (left - x)).
    destruct (shares q M (S i) k (left - x)) as [|y l] eqn:E.
    + pose proof (shares_length q M k (S i) (left - x)) as HL.
      rewrite E in HL. discriminate HL.
    + change (last (x :: y :: l) 0) with (last (y :: l) 0).
      rewrite IH. cbn [firstn sumZ fold_right]. unfold sumZ. lia.
Qed.

(** When every conversion returns, the loop returns the list built from
    the integers returned. *)
Lemma share_loop_returns q M iters : forall i left,
  (forall j, (i <= j < i + iters)%nat -> exists z, q j = Ret z) ->
  share_loop q M i iters left
  = Ret (shares (fun j => returned (q j)) M i iters left).
Proof.
  induction iters as [|k IH]; intros i left Hq; [reflexivity|].
  cbn [share_loop shares].
  destruct (Hq i ltac:(lia)) as [z Hz]. rewrite Hz. cbn [returned].
  rewrite IH by (intros j Hj; apply Hq; lia).
  reflexivity.
Qed.

(** A conversion that raises makes the loop raise. *)
Lemma share_loop_raises q M iters : forall i left j e,
  (i <= j < i + iters)%nat -> q j = Raise e ->
  exists e', share_loop q M i iters left = Raise e'.
Proof.
  induction iters as [|k IH]; intros i left j e Hj Hq; [lia|].
  cbn [share_loop].
  destruct (q i) as [target|e0] eqn:E; [|eexists; reflexivity].
  destruct (Nat.eq_dec i j) as [->|Hne]; [congruence|].
  cbv zeta.
  destruct (IH (S i) (left - Z.min (Z.max 1 target) (left - (M - 1 - Z.of_nat i))) j e
              ltac:(lia) Hq) as [e' He'].
  rewrite He'. eexists. reflexivity.
Qed.

(** The loop returns only when every conversion returned. *)
Lemma share_loop_inv q M iters i left v :
  share_loop q M i iters left = Ret v ->
  forall j, (i <= j < i + iters)%nat -> exists z, q j = Ret z.
Proof.
  intros Hv j Hj. destruct (q j) as [z|e] eqn:E; [eexists; reflexivity|].
  destruct (share_loop_raises q M iters i left j e Hj E) as [e' He'].
  congruence.
Qed.

Lemma recognized_parse method :
  recognized method -> exists m, parse_split_method method = Some m.
Proof.
  intros [H|[H|[H|H]]]; subst; eexists; reflexivity.
Qed.

Lemma parse_recognized method m :
  parse_split_method method = Some m -> recognized method.
Proof.
  unfold parse_split_method, recognized.
  destruct (String.eqb method "uniform") eqn:E1;
    [apply String.eqb_eq in E1; auto|].
  destruct (String.eqb method "linear") eqn:E2;
    [apply String.eqb_eq in E2; auto|].
  destruct (String.eqb method "square") eqn:E3;
    [apply String.eqb_eq in E3; auto|].
  destruct (String.eqb method "exponential") eqn:E4;
    [apply String.eqb_eq in E4; auto 6|].
  discriminate.
Qed.

Lemma parse_exponential method :
  parse_split_method method = Some exponential -> method = "exponential"%string.
Proof.
  unfold parse_split_method.
  destruct (String.eqb method "uniform"); [discriminate|].
  destruct (String.eqb method "linear"); [discriminate|].
  destruct (String.eqb method "square"); [discriminate|].
  destruct (String.eqb method "exponential") eqn:E; [|discriminate].
  intros _. now apply String.eqb_eq.
Qed.

(** ** The share vector of [split_dataset_indices] *)

Section ShareVector.

Variable exp_quota : nat -> nat -> nat -> result Z.

Lemma split_sizes_returns m N M :
  conversions_succeed exp_quota m N M ->
  split_sizes exp_quota m N M = Ret (share_vector exp_quota m N M).
Proof.
  intros H. unfold split_sizes, share_vector.
  apply share_loop_returns. intros j Hj. apply H. lia.
Qed.

Lemma split_sizes_inv m N M v :
  split_sizes exp_quota m N M = Ret v ->
  conversions_succeed exp_quota m N M /\ v = share_vector exp_quota m N M.
Proof.
  intros Hv.
  assert (H : conversions_succeed exp_quota m N M).
  { intros i Hi. apply (share_loop_inv _ _ _ _ _ _ Hv). lia. }
  split; [exact H|].
  rewrite (split_sizes_returns m N M H) in Hv. congruence.
Qed.

(** Integer weights: no conversion raises. *)
Lemma exact_conversions_succeed m N M :
  m <> exponential -> conversions_succeed exp_quota m N M.
Proof.
  intros Hm i _. unfold quota.
  destruct m; try congruence; eexists; reflexivity.
Qed.

Lemma allocate_returns method m N M :
  parse_split_method method = Some m ->
  conversions_succeed exp_quota m N M ->
  allocate exp_quota N M method = Ret (share_vector exp_quota m N M).
Proof.
  intros Hm H. unfold allocate. rewrite Hm. now apply split_sizes_returns.
Qed.

Lemma allocate_inv method N M v :
  allocate exp_quota N M method = Ret v ->
  exists m, parse_split_method method = Some m /\
            conversions_succeed exp_quota m N M /\
            v = share_vector exp_quota m N M.
Proof.
  unfold allocate. destruct (parse_split_method method) as [m|] eqn:Hm; [|discriminate].
  intros Hv. exists m. split; [reflexivity|]. now apply split_sizes_inv.
Qed.

(** A recognized method returns its share vector, [exponential] when no
    conversion raises. *)
Lemma recognized_returns method N M :
  recognized method ->
  (method = "exponential"%string -> conversions_succeed exp_quota exponential N M) ->
  exists m, parse_split_method method = Some m /\
            allocate exp_quota N M method = Ret (share_vector exp_quota m N M).
Proof.
  intros Hrec Hexp.
  destruct (recognized_parse method Hrec) as [m Hm].
  exists m. split; [exact Hm|].
  apply allocate_returns; [exact Hm|].
  destruct m; try (apply exact_conversions_succeed; discriminate).
  apply Hexp. now apply parse_exponential.
Qed.

(** From 711 sites on, the loop of [exponential] gets to [np.exp(710)]
    unless a conversion raised before: the call raises. *)
Lemma allocate_exponential_overflow N M :
  (711 <= M)%nat -> exists e, allocate exp_quota N M "exponential" = Raise e.
Proof.
  intros HM. unfold allocate.
  change (parse_split_method "exponential") with (Some exponential).
  unfold split_sizes.
  apply share_loop_raises
    with (j := 709%nat) (e := ValueError "cannot convert float NaN to integer").
  - lia.
  - reflexivity.
Qed.

Lemma share_vector_length m N M :
  (1 <= M)%nat -> List.length (share_vector exp_quota m N M) = M.
Proof.
  intros HM. unfold share_vector. rewrite shares_length. lia.
Qed.

Lemma share_vector_sum m N M :
  sumZ (share_vector exp_quota m N M) = Z.of_nat N.
Proof. apply shares_sum. Qed.

Lemma share_vector_floor m N M :
  (1 <= M)%nat -> (M <= N)%nat ->
  Forall (fun x => 1 <= x) (share_vector exp_quota m N M).
Proof.
  intros HM HN. apply shares_floor; lia.
Qed.

Lemma share_vector_nonneg m N M :
  (1 <= M)%nat -> (M <= N + 1)%nat ->
  Forall (fun x => 0 <= x) (share_vector exp_quota m N M).
Proof.
  intros HM HN. apply shares_nonneg; lia.
Qed.


(** The length of a returned share vector. *)
Lemma allocate_length method N M v :
  (1 <= M)%nat -> allocate exp_quota N M method = Ret v -> List.length v = M.
Proof.
  intros HM Hv. destruct (allocate_inv method N M v Hv) as (m & _ & _ & ->).
  now apply share_vector_length.
Qed.

End ShareVector.

(** C1, as claimed, fails.  With 711 samples for 711 sites and the method
    [exponential], the loop reaches [np.exp(710)], which is [inf]; the
    quotient is [nan] and [int] raises [ValueError]: no share vector is
    returned, whatever the conversions of the sites before did. *)
Lemma allocate_exponential_711_raises :
  allocate no_exp_quota 711 711 "exponential"
  = Raise (ValueError "cannot convert float NaN to integer")
  /\
  (forall exp_quota,
      ~ (exists v, allocate exp_quota 711 711 "exponential" = Ret v /\
                   List.length v = 711%nat /\
                   sumZ v = Z.of_nat 711 /\
                   Forall (fun x => 1 <= x) v)).
Proof.
  split; [vm_compute; reflexivity|].
  intros exp_quota (v & Hv & _).
  destruct (allocate_exponential_overflow exp_quota 711 711 ltac:(lia)) as [e He].
  rewrite He in Hv. discriminate Hv.
Qed.

(** C1, amended.  With at least one site and at least as many samples as
    sites, for each of the four methods: the call returns a share vector
    -- always for [uniform], [linear] and [square], and for [exponential]
    when no conversion [int(...)] raises -- and a share vector that is
    returned has one entry per site, its entries sum to the number of
    samples, and every entry is at least 1. *)
Theorem allocate_length_sum_floor exp_quota (N M : nat) (method : string) :
  (1 <= M)%nat -> (M <= N)%nat -> recognized method ->
  ((method = "exponential"%string -> conversions_succeed exp_quota exponential N M) ->
   exists v, allocate exp_quota N M method = Ret v) /\
  (forall v, allocate exp_quota N M method = Ret v ->
             List.length v = M /\
             sumZ v = Z.of_nat N /\
             Forall (fun x => 1 <= x) v).
Proof.
  intros HM HN Hrec. split.
  - intros Hexp.
    destruct (recognized_returns exp_quota method N M Hrec Hexp) as (m & _ & Hv).
    eexists. exact Hv.
  - intros v Hv.
    destruct (allocate_inv exp_quota method N M v Hv) as (m & _ & _ & ->).
    split; [now apply share_vector_length|].
    split; [apply share_vector_sum|].
    now apply share_vector_floor.
Qed.

Lemma allocate_length_sum_floor_witness :
  (1 <= 3)%nat /\ (3 <= 10)%nat /\ recognized "linear" /\
  (exists v, allocate no_exp_quota 10 3 "linear" = Ret v) /\
  (forall v, allocate no_exp_quota 10 3 "linear" = Ret v ->
             List.length v = 3%nat /\
             sumZ v = Z.of_nat 10 /\
             Forall (fun x => 1 <= x) v).
Proof.
  assert (H1 : (1 <= 3)%nat) by lia.
  assert (H2 : (3 <= 10)%nat) by lia.
  assert (H3 : recognized "linear") by (right; left; reflexivity).
  assert (H4 : "linear"%string = "exponential"%string ->
               conversions_succeed no_exp_quota exponential 10 3)
    by (intros H; discriminate H).
  split; [exact H1|]. split; [exact H2|]. split; [exact H3|].
  destruct (allocate_length_sum_floor no_exp_quota 10 3 "linear" H1 H2 H3)
    as [Hret Hprop].
  split; [exact (Hret H4) | exact Hprop].
Defined.

(** C10, as claimed, fails.  With no sample for 711 sites and the method
    [exponential], [0 * inf] is [nan] and [int] raises [ValueError]: there
    is no share vector to sum, whatever the conversions of the sites
    before did. *)
Lemma allocate_exponential_0_711_raises :
  allocate no_exp_quota 0 711 "exponential"
  = Raise (ValueError "cannot convert float NaN to integer")
  /\
  (forall exp_quota,
      ~ (exists v, allocate exp_quota 0 711 "exponential" = Ret v /\
                   sumZ v = Z.of_nat 0 /\
                   last v 0 = Z.of_nat 0 - sumZ (firstn (711 - 1) v))).
Proof.
  split; [vm_compute; reflexivity|].
  intros exp_quota (v & Hv & _).
  destruct (allocate_exponential_overflow exp_quota 0 711 ltac:(lia)) as [e He].
  rewrite He in Hv. discriminate Hv.
Qed.

(** C10, amended.  With at least one site, whatever the number of samples,
    for each of the four methods: the call returns a share vector --
    always for [uniform], [linear] and [square], and for [exponential]
    when no conversion [int(...)] raises -- and in a share vector that is
    returned the shares sum to the number of samples, the last share being
    the number of samples minus the sum of the shares of the [M - 1] sites
    before it. *)
Theorem allocate_sum_exact exp_quota (N M : nat) (method : string) :
  (1 <= M)%nat -> recognized method ->
  ((method = "exponential"%string -> conversions_succeed exp_quota exponential N M) ->
   exists v, allocate exp_quota N M method = Ret v) /\
  (forall v, allocate exp_quota N M method = Ret v ->
             sumZ v = Z.of_nat N /\
             last v 0 = Z.of_nat N - sumZ (firstn (M - 1) v)).
Proof.
  intros HM Hrec. split.
  - intros Hexp.
    destruct (recognized_returns exp_quota method N M Hrec Hexp) as (m & _ & Hv).
    eexists. exact Hv.
  - intros v Hv.
    destruct (allocate_inv exp_quota method N M v Hv) as (m & _ & _ & ->).
    split; [apply share_vector_sum|].
    apply shares_last.
Qed.

Lemma allocate_sum_exact_witness :
  (1 <= 4)%nat /\ recognized "square" /\
  (exists v, allocate no_exp_quota 2 4 "square" = Ret v) /\
  (forall v, allocate no_exp_quota 2 4 "square" = Ret v ->
             sumZ v = Z.of_nat 2 /\
             last v 0 = Z.of_nat 2 - sumZ (firstn (4 - 1) v)).
Proof.
  assert (H1 : (1 <= 4)%nat) by lia.
  assert (H2 : recognized "square") by (right; right; left; reflexivity).
  assert (H3 : "square"%string = "exponential"%string ->
               conversions_succeed no_exp_quota exponential 2 4)
    by (intros H; discriminate H).
  split; [exact H1|]. split; [exact H2|].
  destruct (allocate_sum_exact no_exp_quota 2 4 "square" H1 H2) as [Hret Hprop].
  split; [exact (Hret H3) | exact Hprop].
Defined.




(** ** When the shares follow the quotas *)

Lemma sum_quotas_ge_count q n : forall i,
  (forall j, (i <= j < i + n)%nat -> 1 <= q j) ->
  Z.of_nat n <= sumZ (map q (seq i n)).
Proof.
  induction n as [|n IH]; intros i Hq.
  - simpl. lia.
  - cbn [seq map sumZ fold_right].
    assert (H1 : 1 <= q i) by (apply Hq; lia).
    assert (H2 : Z.of_nat n <= sumZ (map q (seq (S i) n))) by (apply IH; intros; apply Hq; lia).
    unfold sumZ in H2. lia.
Qed.

(** When every quota is at least 1 and the quotas of the sites still to
    serve fit in what is left, neither the floor nor the clamp changes a
    quota: each site but the last gets its quota. *)
Lemma shares_exact q M iters : forall i left,
  M = Z.of_nat i + Z.of_nat iters + 1 ->
  (forall j, (i <= j < i + S iters)%nat -> 1 <= q j) ->
  sumZ (map q (seq i (S iters))) <= left ->
  shares q M i iters left
  = map q (seq i iters) ++ [left - sumZ (map q (seq i iters))].
Proof.
  induction iters as [|k IH]; intros i left HM Hq Hsum.
  - simpl. f_equal. lia.
  - cbn [shares].
    assert (H1 : 1 <= q i) by (apply Hq; lia).
    assert (H2 : Z.of_nat (S k) <= sumZ (map q (seq (S i) (S k))))
      by (apply sum_quotas_ge_count; intros; apply Hq; lia).
    change (seq i (S (S k))) with (i :: seq (S i) (S k)) in Hsum.
    cbn [map sumZ fold_right] in Hsum. fold (sumZ (map q (seq (S i) (S k)))) in Hsum.
    assert (Hx : Z.min (Z.max 1 (q i)) (left - (M - 1 - Z.of_nat i)) = q i) by lia.
    rewrite Hx.
    rewrite IH; [| lia | intros; apply Hq; lia | lia].
    cbn [seq map app sumZ fold_right]. unfold sumZ.
    f_equal. f_equal. f_equal. lia.
Qed.

Lemma nth_quotas q M i : (i < M)%nat -> nth i (quotas q M) 0 = q i.
Proof.
  intros Hi. unfold quotas.
  rewrite (nth_indep _ 0 (q 0%nat)) by (rewrite length_map, length_seq; exact Hi).
  rewrite map_nth. rewrite seq_nth by exact Hi. reflexivity.
Qed.

Lemma length_quotas q M : List.length (quotas q M) = M.
Proof. unfold quotas. now rewrite length_map, length_seq. Qed.

Lemma nondecreasing_from_first q M :
  nondecreasing (quotas q M) -> forall j, (j < M)%nat -> q 0%nat <= q j.
Proof.
  intros Hmono. induction j as [|j IH]; intros Hj; [lia|].
  specialize (Hmono j). rewrite length_quotas in Hmono.
  rewrite !nth_quotas in Hmono by lia.
  specialize (Hmono Hj). specialize (IH ltac:(lia)). lia.
Qed.

(** ** Shares that grow with the site *)







Lemma sumZ_snoc l c : sumZ (l ++ [c]) = sumZ l + c.
Proof.
  unfold sumZ. induction l as [|x l IH]; simpl; lia.
Qed.



(** ** Integer weights *)

Lemma nth_linspace M i : (i < M)%nat -> nth i (linspace M) 0 = Z.of_nat (S i).
Proof.
  intros Hi. unfold linspace.
  change 0 with (Z.of_nat 0). rewrite map_nth.
  rewrite seq_nth by exact Hi. reflexivity.
Qed.

Lemma length_linspace M : List.length (linspace M) = M.
Proof. unfold linspace. now rewrite length_map, length_seq. Qed.

Lemma nth_squares M i :
  (i < M)%nat ->
  nth i (map (fun r => r * r) (linspace M)) 0 = Z.of_nat (S i) * Z.of_nat (S i).
Proof.
  intros Hi. change 0 with ((fun r => r * r) 0) at 1. rewrite map_nth.
  now rewrite nth_linspace.
Qed.

(** The integer weight vectors have one positive entry per site, growing
    with the site. *)
Lemma ratio_vec_shape m M rv :
  ratio_vec m M = Exact rv ->
  List.length rv = M /\ Forall (fun r => 0 < r) rv /\ nondecreasing rv.
Proof.
  destruct m; intros H; inversion H; subst; clear H.
  - split; [apply repeat_length|]. split.
    + apply Forall_forall. intros x Hx. apply repeat_spec in Hx. lia.
    + intros i Hi. rewrite repeat_length in Hi.
      rewrite !nth_repeat_lt by lia. lia.
  - split; [apply length_linspace|]. split.
    + apply Forall_forall. intros x Hx. unfold linspace in Hx.
      apply in_map_iff in Hx. destruct Hx as (n & <- & Hn).
      apply in_seq in Hn. lia.
    + intros i Hi. rewrite length_linspace in Hi.
      rewrite !nth_linspace by lia. lia.
  - split; [rewrite length_map; apply length_linspace|]. split.
    + apply Forall_forall. intros x Hx.
      apply in_map_iff in Hx. destruct Hx as (r & <- & Hr).
      unfold linspace in Hr.
      apply in_map_iff in Hr. destruct Hr as (n & <- & Hn).
      apply in_seq in Hn. nia.
    + intros i Hi. rewrite length_map, length_linspace in Hi.
      rewrite !nth_squares by lia. nia.
Qed.

Lemma sumZ_pos rv :
  rv <> [] -> Forall (fun r => 0 < r) rv -> 0 < sumZ rv.
Proof.
  intros Hne Hpos. destruct rv as [|a l]; [congruence|].
  inversion Hpos as [|? ? Ha Hl]; subst.
  assert (H : 0 <= sumZ l).
  { clear -Hl. induction Hl as [|x l Hx _ IH]; simpl; [lia|]. unfold sumZ in *. simpl. lia. }
  unfold sumZ in *. simpl. lia.
Qed.

Lemma map_nth_seq (rv : list Z) (f : Z -> Z) :
  map (fun i => f (nth i rv 0)) (seq 0 (List.length rv)) = map f rv.
Proof.
  induction rv as [|a l IH]; [reflexivity|].
  cbn [List.length seq map nth]. f_equal.
  rewrite <- seq_shift, map_map. exact IH.
Qed.

(** Truncated quotients of [N * r] by the total of the [r] do not hand out
    more than [N]. *)
Lemma sum_quot_le (N S : Z) (rv : list Z) :
  0 <= N -> 0 < S -> Forall (fun r => 0 < r) rv ->
  sumZ (map (fun r => Z.quot (N * r) S) rv) * S <= N * sumZ rv.
Proof.
  intros HN HS Hpos. induction Hpos as [|r l Hr _ IH]; [simpl; lia|].
  cbn [map sumZ fold_right]. fold (sumZ l). fold (sumZ (map (fun r => Z.quot (N * r) S) l)).
  pose proof (Z.mul_quot_le (N * r) S ltac:(nia) ltac:(lia)) as Hq.
  nia.
Qed.

(** For integer weights the quotas grow with the site and sum to at most
    the number of samples. *)
Lemma exact_quotas_regular m N M rv :
  (1 <= M)%nat ->
  ratio_vec m M = Exact rv ->
  nondecreasing (quotas (exact_quota rv N) M) /\
  sumZ (quotas (exact_quota rv N) M) <= Z.of_nat N.
Proof.
  intros HM Hrv.
  destruct (ratio_vec_shape m M rv Hrv) as (Hlen & Hpos & Hmono).
  assert (HS : 0 < sumZ rv).
  { apply sumZ_pos; [|exact Hpos]. intros ->. simpl in Hlen. lia. }
  split.
  - intros i Hi. rewrite length_quotas in Hi.
    rewrite !nth_quotas by lia. unfold exact_quota. cbv zeta.
    apply Z.quot_le_mono; [exact HS|].
    specialize (Hmono i). rewrite Hlen in Hmono. specialize (Hmono Hi). nia.
  - assert (E : quotas (exact_quota rv N) M
                = map (fun r => Z.quot (Z.of_nat N * r) (sumZ rv)) rv).
    { unfold quotas, exact_quota. cbv zeta. rewrite <- Hlen.
      apply (map_nth_seq rv (fun r => Z.quot (Z.of_nat N * r) (sumZ rv))). }
    rewrite E.
    pose proof (sum_quot_le (Z.of_nat N) (sumZ rv) rv ltac:(lia) HS Hpos) as H.
    nia.
Qed.





(** ** Programs and their traces *)

Lemma bind_Ret {A B : Type} (p : prog A) (k : A -> prog B) (a : A) :
  snd p = Ret a -> bind p k = (fst p ++ fst (k a), snd (k a)).
Proof.
  destruct p as [t r]. simpl. intros ->. now destruct (k a).
Qed.

Lemma bind_Raise {A B : Type} (p : prog A) (k : A -> prog B) (e : exn) :
  snd p = Raise e -> bind p k = (fst p, Raise e).
Proof.
  destruct p as [t r]. simpl. now intros ->.
Qed.

Lemma Forall_bind {A B : Type} (P : event -> Prop) (p : prog A) (k : A -> prog B) :
  Forall P (fst p) ->
  (forall a, snd p = Ret a -> Forall P (fst (k a))) ->
  Forall P (fst (bind p k)).
Proof.
  destruct p as [t [a|e]]; simpl; intros Hp Hk; [|exact Hp].
  specialize (Hk a eq_refl). destruct (k a) as [t' r]. simpl in *.
  apply Forall_app. now split.
Qed.

Lemma Forall_try_catch {A : Type} (P : event -> Prop) (p : prog A) h :
  Forall P (fst p) ->
  (forall e k, snd p = Raise e -> h e = Some k -> Forall P (fst k)) ->
  Forall P (fst (try_catch p h)).
Proof.
  destruct p as [t [a|e]]; simpl; intros Hp Hh; [exact Hp|].
  destruct (h e) as [k|] eqn:E; [|exact Hp].
  specialize (Hh e k eq_refl E). destruct k as [t' r]. simpl in *.
  apply Forall_app. now split.
Qed.

(** ** The per-client loop *)

Section SendAll.

Variable w : world.
Variables inventory_path remote_dest_path : string.

Lemma send_files_exits c :
  copies_exit w inventory_path remote_dest_path c ->
  send_files w inventory_path remote_dest_path c
  = (client_events w inventory_path remote_dest_path c, Ret tt).
Proof.
  unfold copies_exit, send_files, client_events, run.
  destruct (respond w (copy_train_of w inventory_path remote_dest_path c)) as [|[]];
    destruct (respond w (copy_test_of w inventory_path remote_dest_path c)) as [|[]];
    simpl; intros [H1 H2]; try contradiction; reflexivity.
Qed.

Lemma send_all_exits client_names :
  Forall (copies_exit w inventory_path remote_dest_path) client_names ->
  send_all w inventory_path remote_dest_path client_names
  = (flat_map (client_events w inventory_path remote_dest_path) client_names, Ret tt).
Proof.
  induction 1 as [|c l Hc _ IH]; [reflexivity|].
  cbn [send_all flat_map].
  rewrite (bind_Ret _ _ tt) by (now rewrite send_files_exits).
  rewrite send_files_exits by assumption. rewrite IH. reflexivity.
Qed.

(** The events of one client: the announcement, the train copy, the test
    copy when the train copy completed, and the diagnostic of the copy that
    exited non-zero. *)
Lemma client_events_spec c e :
  copies_exit w inventory_path remote_dest_path c ->
  In e (client_events w inventory_path remote_dest_path c) <->
  e = Print (msg_sending c) \/
  e = Run (copy_train_of w inventory_path remote_dest_path c) \/
  (e = Run (copy_test_of w inventory_path remote_dest_path c) /\
   respond w (copy_train_of w inventory_path remote_dest_path c) = Completed) \/
  (exists stderr, e = PrintErr (msg_copy_error c stderr) /\
                  copy_fails w inventory_path remote_dest_path c stderr).
Proof.
  unfold copies_exit, client_events, copy_fails.
  destruct (respond w (copy_train_of w inventory_path remote_dest_path c)) as [|[]];
    destruct (respond w (copy_test_of w inventory_path remote_dest_path c)) as [|[]];
    simpl; try tauto; intros _;
    (split;
     [ intros H; repeat (destruct H as [H|H]); try contradiction; subst; eauto 10
     | intros [H|[H|[[H H']|[s [H [H'|[H' H'']]]]]]]; subst;
       try discriminate; try (injection H' as ->); try (injection H'' as ->); eauto 10 ]).
Qed.

End SendAll.

(** ** The run before the per-client loop *)

Section BeforeTransfer.

Variable exp_quota : nat -> nat -> nat -> result Z.
Variable shuffle : list nat -> list nat.
Variable w : world.

Lemma slice_groups_length indices sizes : forall current_idx,
  List.length (slice_groups indices current_idx sizes) = List.length sizes.
Proof.
  induction sizes as [|s l IH]; intros a; simpl; [reflexivity|].
  now rewrite IH.
Qed.

Lemma split_call_quiet N M method :
  Forall quiet (fst (split_dataset_indices_call exp_quota shuffle N M method)).
Proof.
  unfold split_dataset_indices_call.
  destruct (allocate exp_quota N M method); simpl; repeat constructor.
Qed.

Lemma split_call_returns N M method :
  (1 <= M)%nat -> (exists sizes, allocate exp_quota N M method = Ret sizes) ->
  exists sizes groups,
    split_dataset_indices_call exp_quota shuffle N M method
    = ([Print (msg_splitting N M method sizes)], Ret groups) /\
    List.length groups = M.
Proof.
  intros HM [sizes Hsizes].
  exists sizes.
  exists (slice_groups (shuffle (seq 0 N)) 0 sizes).
  unfold split_dataset_indices_call. rewrite Hsizes. simpl.
  split; [reflexivity|].
  rewrite slice_groups_length. now apply allocate_length with (1 := HM) (2 := Hsizes).
Qed.

Lemma save_quiet s file_path :
  Forall quiet (fst (_save_tensors_to_pt w s file_path)).
Proof.
  unfold _save_tensors_to_pt.
  destruct (save_outcome w file_path); simpl; repeat constructor.
Qed.

Lemma save_completes s file_path :
  save_outcome w file_path = Completed ->
  snd (_save_tensors_to_pt w s file_path) = Ret tt.
Proof.
  unfold _save_tensors_to_pt. now intros ->.
Qed.

Lemma save_train_shards_quiet groups client_names : forall i,
  Forall quiet (fst (save_train_shards w groups i client_names)).
Proof.
  induction client_names as [|c l IH]; intros i; simpl; [constructor|].
  destruct (nth_error groups i); [|constructor].
  apply Forall_bind; [apply save_quiet|]. intros _ _. apply IH.
Qed.

Lemma save_train_shards_completes groups client_names : forall i,
  (forall file_path, save_outcome w file_path = Completed) ->
  (i + List.length client_names <= List.length groups)%nat ->
  snd (save_train_shards w groups i client_names) = Ret tt.
Proof.
  induction client_names as [|c l IH]; intros i Hsave Hlen; simpl; [reflexivity|].
  simpl in Hlen.
  destruct (nth_error groups i) eqn:E.
  - rewrite (bind_Ret _ _ tt) by (apply save_completes, Hsave).
    simpl. apply IH; [exact Hsave | lia].
  - apply nth_error_None in E. lia.
Qed.

Lemma query_clients_quiet inventory_path :
  Forall quiet (fst (query_clients w inventory_path)).
Proof.
  unfold query_clients, run.
  destruct (respond w (cmd_inventory inventory_path)) as [|[]];
    destruct (inventory_stdout w) as [|[[l|]|]]; simpl;
    try destruct (List.length l =? 0)%nat; simpl; repeat constructor.
Qed.

Lemma query_clients_found inventory_path client_names :
  respond w (cmd_inventory inventory_path) = Completed ->
  inventory_stdout w = parsed (Some (Some client_names)) ->
  client_names <> [] ->
  snd (query_clients w inventory_path) = Ret (Some client_names).
Proof.
  intros Hq Hs Hne. unfold query_clients, run. rewrite Hq, Hs.
  destruct client_names as [|c l]; [congruence|]. reflexivity.
Qed.

Lemma reset_remote_quiet inventory_path remote_dest_path :
  Forall quiet (fst (reset_remote w inventory_path remote_dest_path)).
Proof.
  unfold reset_remote, run.
  destruct (respond w (cmd_delete_dir inventory_path remote_dest_path));
    destruct (respond w (cmd_create_dir inventory_path remote_dest_path));
    simpl; repeat constructor.
Qed.

(** A reset command that raises, whatever it raises, makes the function
    return. *)
Lemma reset_remote_fails inventory_path remote_dest_path :
  (exists e, respond w (cmd_delete_dir inventory_path remote_dest_path) = Raises e) \/
  (exists e, respond w (cmd_create_dir inventory_path remote_dest_path) = Raises e) ->
  snd (reset_remote w inventory_path remote_dest_path) = Ret Returned.
Proof.
  unfold reset_remote, run.
  intros [[e He]|[e He]]; rewrite He.
  - reflexivity.
  - destruct (respond w (cmd_delete_dir inventory_path remote_dest_path)); reflexivity.
Qed.

Lemma reset_remote_completes inventory_path remote_dest_path :
  respond w (cmd_delete_dir inventory_path remote_dest_path) = Completed ->
  respond w (cmd_create_dir inventory_path remote_dest_path) = Completed ->
  snd (reset_remote w inventory_path remote_dest_path) = Ret Next.
Proof.
  unfold reset_remote, run. now intros -> ->.
Qed.

Lemma Forall_with_temp_dir {A : Type} (P : event -> Prop) (body : prog A) :
  Forall P (fst body) -> P (Cleanup (temp_dir w)) ->
  Forall P (fst (with_temp_dir w body)).
Proof.
  unfold with_temp_dir. destruct body as [t r]. simpl. intros Ht Hc.
  apply Forall_app. split; [exact Ht | now constructor].
Qed.

End BeforeTransfer.

(** ** The whole run *)

Lemma ends_with_bind {A B : Type} X (r : result B) (p : prog A) (k : A -> prog B) a :
  snd p = Ret a -> Forall quiet (fst p) ->
  ends_with X r (k a) -> ends_with X r (bind p k).
Proof.
  intros Hp Hq (pre & Hpre & Hk).
  exists (fst p ++ pre). split; [apply Forall_app; now split|].
  rewrite (bind_Ret p k a Hp), Hk. simpl. now rewrite app_assoc.
Qed.

Lemma quiet_not_copy_job e : quiet e -> copy_job e = false.
Proof.
  unfold quiet. destruct e as [m|m|c|f s|d]; try reflexivity.
  destruct c; simpl; congruence.
Qed.

Section Run.

Variable exp_quota : nat -> nat -> nat -> result Z.
Variable shuffle : list nat -> list nat.
Variable w : world.
Variables len_train_data len_train_labels len_test_data len_test_labels : nat.
Variables inventory_path split_method remote_dest_path : string.

Lemma reset_failure_quiet :
  (exists e, respond w (cmd_delete_dir inventory_path remote_dest_path) = Raises e) \/
  (exists e, respond w (cmd_create_dir inventory_path remote_dest_path) = Raises e) ->
  Forall quiet
    (fst (split_and_distribute exp_quota shuffle w
            len_train_data len_train_labels len_test_data len_test_labels
            inventory_path split_method remote_dest_path)).
Proof.
  intros Hfail. unfold split_and_distribute.
  apply Forall_bind; [repeat constructor|intros _ _].
  apply Forall_bind; [repeat constructor|intros _ _].
  destruct (negb (len_train_data =? len_train_labels)%nat); [repeat constructor|].
  destruct (negb (len_test_data =? len_test_labels)%nat); [repeat constructor|].
  destruct (negb (inventory_exists w inventory_path)); [repeat constructor|].
  apply Forall_bind; [apply query_clients_quiet|intros [names|] _; [|constructor]].
  apply Forall_bind.
  - apply Forall_with_temp_dir; [|reflexivity].
    apply Forall_bind; [repeat constructor|intros _ _].
    apply Forall_bind; [apply split_call_quiet|intros groups _].
    apply Forall_bind; [apply save_train_shards_quiet|intros _ _].
    apply Forall_bind; [repeat constructor|intros _ _].
    apply Forall_bind; [apply save_quiet|intros _ _].
    apply Forall_bind; [repeat constructor|intros _ _].
    apply Forall_bind; [apply reset_remote_quiet|intros r Hr].
    rewrite reset_remote_fails in Hr by exact Hfail.
    injection Hr as <-. constructor.
  - intros [|] _; repeat constructor.
Qed.

(** When the per-client loop is reached and every copy job returns or
    exits non-zero, the run is: events before the loop, the events of each
    client in turn, the closing lines; and the function returns. *)
Lemma transfer_trace client_names :
  reaches_transfer exp_quota w
                   len_train_data len_train_labels len_test_data len_test_labels
                   inventory_path split_method remote_dest_path client_names ->
  ends_with
    (flat_map (client_events w inventory_path remote_dest_path) client_names ++
     [Print msg_all_distributed; Cleanup (temp_dir w); Print msg_process_complete])
    (Ret tt)
    (split_and_distribute exp_quota shuffle w
       len_train_data len_train_labels len_test_data len_test_labels
       inventory_path split_method remote_dest_path).
Proof.
  intros [Ha Hb Hinv Hq Hout Hne Hrec Hsave Hdel Hcre Hcopies].
  rewrite Ha in Hrec.
  unfold split_and_distribute.
  apply ends_with_bind with (a := tt); [reflexivity | repeat constructor |].
  apply ends_with_bind with (a := tt); [reflexivity | repeat constructor |].
  rewrite Ha, Hb, !Nat.eqb_refl, Hinv. cbn [negb].
  apply ends_with_bind with (a := Some client_names);
    [now apply query_clients_found | apply query_clients_quiet |].
  assert (HM : (1 <= List.length client_names)%nat).
  { destruct client_names; [congruence | simpl; lia]. }
  destruct (split_call_returns exp_quota shuffle len_train_labels
              (List.length client_names) split_method HM Hrec)
    as (sizes & groups & Hcall & Hlen).
  assert (Hbody :
    ends_with
      (flat_map (client_events w inventory_path remote_dest_path) client_names ++
       [Print msg_all_distributed])
      (Ret Next)
      (emit (Print (msg_creating_splits (temp_dir w))) ;;
       train_indices <-
         split_dataset_indices_call exp_quota shuffle len_train_labels
           (List.length client_names) split_method ;;
       save_train_shards w train_indices 0 client_names ;;
       emit (Print msg_saving_test) ;;
       _save_tensors_to_pt w (test_full len_test_labels)
         (path_join (temp_dir w) "test_data.pt") ;;
       emit (Print msg_starting_distribution) ;;
       r <- reset_remote w inventory_path remote_dest_path ;;
       match r with
       | Returned => ret Returned
       | Next =>
           emit (Print msg_distributing) ;;
           send_all w inventory_path remote_dest_path client_names ;;
           emit (Print msg_all_distributed) ;;
           ret Next
       end)).
  { apply ends_with_bind with (a := tt); [reflexivity | repeat constructor |].
    apply ends_with_bind with (a := groups);
      [now rewrite Hcall | apply split_call_quiet |].
    apply ends_with_bind with (a := tt);
      [apply save_train_shards_completes; [exact Hsave | simpl; lia]
      | apply save_train_shards_quiet |].
    apply ends_with_bind with (a := tt); [reflexivity | repeat constructor |].
    apply ends_with_bind with (a := tt);
      [apply save_completes, Hsave | apply save_quiet |].
    apply ends_with_bind with (a := tt); [reflexivity | repeat constructor |].
    apply ends_with_bind with (a := Next);
      [now apply reset_remote_completes | apply reset_remote_quiet |].
    apply ends_with_bind with (a := tt); [reflexivity | repeat constructor |].
    exists []. split; [constructor|].
    rewrite (send_all_exits w inventory_path remote_dest_path client_names Hcopies).
    reflexivity. }
  destruct Hbody as (pre & Hpre & Hbody).
  exists pre. split; [exact Hpre|].
  rewrite Hbody. unfold with_temp_dir. simpl.
  rewrite <- !app_assoc. reflexivity.
Qed.

End Run.

(** ** Claims on [split_and_distribute] *)

Lemma in_transfer_trace pre X tail e :
  Forall quiet pre -> transfer_event e = true -> Forall quiet tail ->
  In e (pre ++ X ++ tail) -> In e X.
Proof.
  intros Hpre He Htail Hin.
  apply in_app_or in Hin. destruct Hin as [Hin|Hin].
  - rewrite Forall_forall in Hpre. specialize (Hpre e Hin). unfold quiet in Hpre. congruence.
  - apply in_app_or in Hin. destruct Hin as [Hin|Hin]; [exact Hin|].
    rewrite Forall_forall in Htail. specialize (Htail e Hin). unfold quiet in Htail. congruence.
Qed.

Lemma closing_lines_quiet w :
  Forall quiet [Print msg_all_distributed; Cleanup (temp_dir w); Print msg_process_complete].
Proof. repeat constructor. Qed.

Lemma flaky_reaches_transfer :
  reaches_transfer no_exp_quota flaky_world 4 4 3 3 "inventory.ini" "uniform" "/data"
                   ["site-1"; "site-2"]%string.
Proof.
  constructor; try reflexivity.
  - discriminate.
  - eexists. reflexivity.
  - repeat constructor.
Qed.

(** C9.  When the training data and labels differ in length, or the test
    data and labels do, the function returns at once: it only printed; it
    ran no command (no inventory query, no remote command) and wrote no
    shard file. *)
Theorem mismatch_returns_without_effect exp_quota shuffle (w : world)
        (len_train_data len_train_labels len_test_data len_test_labels : nat)
        (inventory_path split_method remote_dest_path : string) :
  len_train_data <> len_train_labels \/ len_test_data <> len_test_labels ->
  exists t,
    split_and_distribute exp_quota shuffle w
      len_train_data len_train_labels len_test_data len_test_labels
      inventory_path split_method remote_dest_path = (t, Ret tt) /\
    Forall (fun e => only_prints e = true) t.
Proof.
  intros H. unfold split_and_distribute.
  destruct (Nat.eqb_spec len_train_data len_train_labels) as [E1|E1].
  - destruct (Nat.eqb_spec len_test_data len_test_labels) as [E2|E2]; [tauto|].
    simpl. eexists. split; [reflexivity | repeat constructor].
  - simpl. eexists. split; [reflexivity | repeat constructor].
Qed.

Lemma mismatch_returns_without_effect_witness :
  ((4 <> 5)%nat \/ (3 <> 3)%nat) /\
  exists t,
    split_and_distribute no_exp_quota (fun l => l) calm_world 4 5 3 3
      "inventory.ini" "uniform" "/data" = (t, Ret tt) /\
    Forall (fun e => only_prints e = true) t.
Proof.
  assert (H : (4 <> 5)%nat \/ (3 <> 3)%nat) by (left; discriminate).
  split; [exact H|].
  exact (mismatch_returns_without_effect no_exp_quota (fun l => l) calm_world 4 5 3 3
           "inventory.ini" "uniform" "/data" H).
Defined.

(** C5.  When the fleet-wide delete or the fleet-wide recreate raises,
    whatever the exception, no copy job is run for any client. *)
Theorem reset_failure_no_copy_job exp_quota shuffle (w : world)
        (len_train_data len_train_labels len_test_data len_test_labels : nat)
        (inventory_path split_method remote_dest_path : string) :
  (exists e, respond w (cmd_delete_dir inventory_path remote_dest_path) = Raises e) \/
  (exists e, respond w (cmd_create_dir inventory_path remote_dest_path) = Raises e) ->
  Forall (fun ev => copy_job ev = false)
    (fst (split_and_distribute exp_quota shuffle w
            len_train_data len_train_labels len_test_data len_test_labels
            inventory_path split_method remote_dest_path)).
Proof.
  intros Hfail.
  eapply Forall_impl; [|apply reset_failure_quiet; exact Hfail].
  intros e. apply quiet_not_copy_job.
Qed.

Lemma reset_failure_no_copy_job_witness :
  ((exists e, respond stuck_world (cmd_delete_dir "inventory.ini" "/data") = Raises e) \/
   (exists e, respond stuck_world (cmd_create_dir "inventory.ini" "/data") = Raises e)) /\
  Forall (fun ev => copy_job ev = false) (fst (example_run stuck_world)).
Proof.
  assert (H : (exists e, respond stuck_world (cmd_delete_dir "inventory.ini" "/data") = Raises e) \/
              (exists e, respond stuck_world (cmd_create_dir "inventory.ini" "/data") = Raises e))
    by (left; exists TimeoutExpired; reflexivity).
  split; [exact H|].
  exact (reset_failure_no_copy_job no_exp_quota (fun l => l) stuck_world 4 4 3 3
           "inventory.ini" "uniform" "/data" H).
Defined.

(** C3.  When the per-client loop is reached (the split returned, the
    shards were written, the reset completed) and the copy jobs either
    return or exit non-zero, the function returns normally; the train copy
    of every client of the list was run; every copy that exited non-zero
    has its diagnostic, with the client's name, on the error stream; and
    the last thing the run does is print the closing line. *)
Theorem failed_copy_does_not_stop_the_run exp_quota shuffle (w : world)
        (len_train_data len_train_labels len_test_data len_test_labels : nat)
        (inventory_path split_method remote_dest_path : string)
        (client_names : list string) :
  reaches_transfer exp_quota w
                   len_train_data len_train_labels len_test_data len_test_labels
                   inventory_path split_method remote_dest_path client_names ->
  exists t,
    split_and_distribute exp_quota shuffle w
      len_train_data len_train_labels len_test_data len_test_labels
      inventory_path split_method remote_dest_path = (t, Ret tt) /\
    (forall c, In c client_names ->
               In (Run (copy_train_of w inventory_path remote_dest_path c)) t) /\
    (forall c stderr,
        In c client_names ->
        copy_fails w inventory_path remote_dest_path c stderr ->
        In (PrintErr (msg_copy_error c stderr)) t) /\
    last t (Print msg_starting) = Print msg_process_complete.
Proof.
  intros Hreach.
  destruct (transfer_trace exp_quota shuffle w _ _ _ _ _ _ _ _ Hreach)
    as (pre & Hpre & Hrun).
  pose proof (rt_copies _ _ _ _ _ _ _ _ _ _ Hreach) as Hcopies.
  rewrite Forall_forall in Hcopies.
  eexists. split; [exact Hrun|].
  split; [|split].
  - intros c Hc. apply in_or_app. right. apply in_or_app. left.
    apply in_flat_map. exists c. split; [exact Hc|].
    apply client_events_spec; [now apply Hcopies | tauto].
  - intros c stderr Hc Hf. apply in_or_app. right. apply in_or_app. left.
    apply in_flat_map. exists c. split; [exact Hc|].
    apply client_events_spec; [now apply Hcopies|].
    right. right. right. now exists stderr.
  - rewrite !app_assoc.
    change [Print msg_all_distributed; Cleanup (temp_dir w); Print msg_process_complete]
      with ([Print msg_all_distributed; Cleanup (temp_dir w)] ++ [Print msg_process_complete]).
    rewrite app_assoc. apply last_last.
Qed.

Lemma failed_copy_does_not_stop_the_run_witness :
  reaches_transfer no_exp_quota flaky_world 4 4 3 3 "inventory.ini" "uniform" "/data"
                   ["site-1"; "site-2"]%string /\
  exists t,
    example_run flaky_world = (t, Ret tt) /\
    (forall c, In c ["site-1"; "site-2"]%string ->
               In (Run (copy_train_of flaky_world "inventory.ini" "/data" c)) t) /\
    (forall c stderr,
        In c ["site-1"; "site-2"]%string ->
        copy_fails flaky_world "inventory.ini" "/data" c stderr ->
        In (PrintErr (msg_copy_error c stderr)) t) /\
    last t (Print msg_starting) = Print msg_process_complete.
Proof.
  split; [exact flaky_reaches_transfer|].
  exact (failed_copy_does_not_stop_the_run no_exp_quota (fun l => l) flaky_world 4 4 3 3
           "inventory.ini" "uniform" "/data" ["site-1"; "site-2"]%string
           flaky_reaches_transfer).
Defined.

(** C6, as claimed, fails.  In one run every copy returns, in the other the
    train copy to [site-1] exits non-zero; both runs return the same value
    and end with the same lines. *)
Lemma summary_same_after_failed_copy :
  Forall (fun c =>
            respond calm_world (copy_train_of calm_world "inventory.ini" "/data" c) = Completed /\
            respond calm_world (copy_test_of calm_world "inventory.ini" "/data" c) = Completed)
         ["site-1"; "site-2"]%string /\
  copy_fails flaky_world "inventory.ini" "/data" "site-1" "UNREACHABLE" /\
  snd (example_run calm_world) = Ret tt /\
  snd (example_run flaky_world) = Ret tt /\
  after_transfer (fst (example_run calm_world))
  = [Print msg_all_distributed; Cleanup "/tmp/t"; Print msg_process_complete] /\
  after_transfer (fst (example_run flaky_world))
  = [Print msg_all_distributed; Cleanup "/tmp/t"; Print msg_process_complete] /\
  ~ summary_distinguishes (example_run calm_world) (example_run flaky_world).
Proof.
  split; [repeat constructor|]. split; [left; reflexivity|].
  repeat (split; [reflexivity|]).
  intros [H|H]; apply H; vm_compute; reflexivity.
Qed.

(** C6, amended.  When the per-client loop is reached and the copy jobs
    either return or exit non-zero, the function returns no report (its
    value is the unit), and the error stream tells the clients apart: the
    diagnostic of a failed copy, with the client's name, is printed
    exactly for the clients of the list that have a copy job exiting
    non-zero. *)
Theorem failed_copies_have_diagnostics exp_quota shuffle (w : world)
        (len_train_data len_train_labels len_test_data len_test_labels : nat)
        (inventory_path split_method remote_dest_path : string)
        (client_names : list string) :
  reaches_transfer exp_quota w
                   len_train_data len_train_labels len_test_data len_test_labels
                   inventory_path split_method remote_dest_path client_names ->
  exists t,
    split_and_distribute exp_quota shuffle w
      len_train_data len_train_labels len_test_data len_test_labels
      inventory_path split_method remote_dest_path = (t, Ret tt) /\
    forall c stderr,
      In (PrintErr (msg_copy_error c stderr)) t <->
      In c client_names /\ copy_fails w inventory_path remote_dest_path c stderr.
Proof.
  intros Hreach.
  destruct (transfer_trace exp_quota shuffle w _ _ _ _ _ _ _ _ Hreach)
    as (pre & Hpre & Hrun).
  pose proof (rt_copies _ _ _ _ _ _ _ _ _ _ Hreach) as Hcopies.
  rewrite Forall_forall in Hcopies.
  eexists. split; [exact Hrun|].
  intros c stderr. split.
  - intros Hin.
    apply in_transfer_trace in Hin;
      [| exact Hpre | reflexivity | apply closing_lines_quiet].
    apply in_flat_map in Hin. destruct Hin as (c' & Hc' & Hin).
    apply client_events_spec in Hin; [|now apply Hcopies].
    destruct Hin as [Hin|[Hin|[[Hin _]|(s & Hin & Hf)]]]; try discriminate Hin.
    injection Hin as <- <-. now split.
  - intros [Hc Hf]. apply in_or_app. right. apply in_or_app. left.
    apply in_flat_map. exists c. split; [exact Hc|].
    apply client_events_spec; [now apply Hcopies|].
    right. right. right. now exists stderr.
Qed.

Lemma failed_copies_have_diagnostics_witness :
  reaches_transfer no_exp_quota flaky_world 4 4 3 3 "inventory.ini" "uniform" "/data"
                   ["site-1"; "site-2"]%string /\
  exists t,
    example_run flaky_world = (t, Ret tt) /\
    forall c stderr,
      In (PrintErr (msg_copy_error c stderr)) t <->
      In c ["site-1"; "site-2"]%string /\
      copy_fails flaky_world "inventory.ini" "/data" c stderr.
Proof.
  split; [exact flaky_reaches_transfer|].
  exact (failed_copies_have_diagnostics no_exp_quota (fun l => l) flaky_world 4 4 3 3
           "inventory.ini" "uniform" "/data" ["site-1"; "site-2"]%string
           flaky_reaches_transfer).
Defined.

(** ** Slicing the shuffled indices *)

Lemma py_slice_in_range {A : Type} (l : list A) (a s : Z) :
  0 <= a -> 0 <= s -> a + s <= Z.of_nat (List.length l) ->
  py_slice l a (a + s) = firstn (Z.to_nat s) (skipn (Z.to_nat a) l).
Proof.
  intros Ha Hs Hlen. unfold py_slice, slice_bound.
  destruct (Z.ltb_spec a 0) as [H|_]; [lia|].
  destruct (Z.ltb_spec (a + s) 0) as [H|_]; [lia|].
  rewrite !Z.min_l by lia.
  f_equal. f_equal. lia.
Qed.

Lemma firstn_add_skipn {A : Type} (l : list A) (n m : nat) :
  firstn n l ++ firstn m (skipn n l) = firstn (n + m) l.
Proof.
  revert l. induction n as [|n IH]; intros l; [reflexivity|].
  destruct l as [|x l]; simpl.
  - now rewrite firstn_nil.
  - now rewrite IH.
Qed.

(** Shares that are not negative and fit in the index array cut it into
    consecutive runs of those lengths. *)
Lemma slice_groups_runs (indices : list nat) (sizes : list Z) : forall a,
  0 <= a -> Forall (fun x => 0 <= x) sizes ->
  a + sumZ sizes <= Z.of_nat (List.length indices) ->
  List.concat (slice_groups indices a sizes)
  = firstn (Z.to_nat (sumZ sizes)) (skipn (Z.to_nat a) indices) /\
  map (fun g => Z.of_nat (List.length g)) (slice_groups indices a sizes) = sizes.
Proof.
  induction sizes as [|s l IH]; intros a Ha Hpos Hfit.
  - split; reflexivity.
  - inversion Hpos as [|? ? Hs Hl]; subst.
    assert (H0 : 0 <= sumZ l).
    { clear -Hl. induction Hl as [|x l Hx _ IHl]; [simpl; lia|].
      unfold sumZ in *. simpl. lia. }
    cbn [sumZ fold_right] in Hfit. fold (sumZ l) in Hfit.
    destruct (IH (a + s) ltac:(lia) Hl ltac:(lia)) as [IHc IHm].
    cbn [slice_groups List.concat map].
    rewrite py_slice_in_range by lia.
    rewrite IHc, IHm. split.
    + cbn [sumZ fold_right]. fold (sumZ l).
      rewrite !Z2Nat.inj_add by lia.
      rewrite (Nat.add_comm (Z.to_nat a)), <- skipn_skipn.
      apply firstn_add_skipn.
    + f_equal. rewrite length_firstn, length_skipn. lia.
Qed.

(** With at most one sample missing for a share of one per site, when the
    share vector is returned, the groups are consecutive runs of the
    shuffled indices, one per site, of the sizes of the share vector;
    together they are the shuffled indices, hence each index of [0, N)
    once. *)
Lemma partition_when_samples_suffice exp_quota shuffle (N M : nat) (method : string)
      (sizes : list Z) :
  (forall l, Permutation (shuffle l) l) ->
  (1 <= M)%nat -> (M <= N + 1)%nat ->
  allocate exp_quota N M method = Ret sizes ->
  exists groups,
    split_dataset_indices exp_quota shuffle N M method = Ret groups /\
    List.length groups = M /\
    map (fun g => Z.of_nat (List.length g)) groups = sizes /\
    List.concat groups = shuffle (seq 0 N) /\
    Permutation (List.concat groups) (seq 0 N) /\
    NoDup (List.concat groups).
Proof.
  intros Hperm HM HN Hsizes.
  destruct (allocate_inv exp_quota method N M sizes Hsizes) as (m & Hm & Hconv & E).
  exists (slice_groups (shuffle (seq 0 N)) 0 sizes).
  unfold split_dataset_indices. rewrite Hsizes. subst sizes.
  assert (Hlen : List.length (shuffle (seq 0 N)) = N).
  { rewrite (Permutation_length (Hperm (seq 0 N))). apply length_seq. }
  destruct (slice_groups_runs (shuffle (seq 0 N)) (share_vector exp_quota m N M) 0)
    as [Hc Hs].
  { lia. }
  { now apply share_vector_nonneg. }
  { rewrite share_vector_sum, Hlen. lia. }
  assert (Hcat : List.concat (slice_groups (shuffle (seq 0 N)) 0 (share_vector exp_quota m N M))
                 = shuffle (seq 0 N)).
  { rewrite Hc, share_vector_sum, Nat2Z.id. simpl.
    rewrite <- Hlen at 1. apply firstn_all. }
  repeat split; try assumption.
  - rewrite slice_groups_length. now apply share_vector_length.
  - rewrite Hcat. apply Hperm.
  - rewrite Hcat. apply (Permutation_NoDup (l := seq 0 N)).
    + symmetry. apply Hperm.
    + apply seq_NoDup.
Qed.

(** C2 fails on the code.  Three samples for five sites: the share vector
    is [-1; 1; 1; 1; 1]; whatever the three shuffled indices [a], [b], [c]
    are, the first site gets [a] and [b], the second none, and the last
    three get [a], [b] and [c]: the groups overlap, and their sizes
    2, 0, 1, 1, 1 are not the shares. *)
Theorem split_short_of_samples_overlaps exp_quota (a b c : nat) :
  allocate exp_quota 3 5 "uniform" = Ret [-1; 1; 1; 1; 1] /\
  split_dataset_indices exp_quota (fun _ => [a; b; c]) 3 5 "uniform"
  = Ret [[a; b]; []; [a]; [b]; [c]].
Proof. split; reflexivity. Qed.

(** X23.  From 711 sites on, whatever the number of samples, the loop of
    [exponential] gets to [np.exp(710)], which is [inf], unless a
    conversion raised before: [split_dataset_indices] raises and returns
    no groups. *)
Theorem exponential_raises_from_711_sites exp_quota shuffle (N M : nat) :
  (711 <= M)%nat ->
  exists e, allocate exp_quota N M "exponential" = Raise e /\
            split_dataset_indices exp_quota shuffle N M "exponential" = Raise e.
Proof.
  intros HM.
  destruct (allocate_exponential_overflow exp_quota N M HM) as [e He].
  exists e. split; [exact He|].
  unfold split_dataset_indices. now rewrite He.
Qed.

Lemma exponential_raises_from_711_sites_witness :
  (711 <= 711)%nat /\
  exists e, allocate no_exp_quota 1000 711 "exponential" = Raise e /\
            split_dataset_indices no_exp_quota (fun l => l) 1000 711 "exponential"
            = Raise e.
Proof.
  assert (H : (711 <= 711)%nat) by lia.
  split; [exact H|].
  exact (exponential_raises_from_711_sites no_exp_quota (fun l => l) 1000 711 H).
Defined.

(** ** Examples *)

(** Ten samples for three sites, evenly. *)
Example allocate_10_3_uniform :
  allocate no_exp_quota 10 3 "uniform" = Ret [3; 3; 4].
Proof. reflexivity. Qed.

(** Eleven million samples for four sites, evenly: the loop on the quotas
    [int(11000000 * 1 / 4)]. *)
Example share_loop_11000000_4_uniform :
  share_loop (fun _ => Ret (Z.quot (11000000 * 1) 4)) 4 0 3 11000000
  = Ret [2750000; 2750000; 2750000; 2750000].
Proof. reflexivity. Qed.

Example allocate_100_3_exponential :
  allocate exp_quota_100_3 100 3 "exponential" = Ret [9; 24; 67].
Proof. reflexivity. Qed.

(** The share vectors of the inputs at which claims fail. *)
Example allocate_8_7_square :
  allocate no_exp_quota 8 7 "square" = Ret [1; 1; 1; 1; 1; 2; 1].
Proof. reflexivity. Qed.

Example allocate_1_2_uniform :
  allocate no_exp_quota 1 2 "uniform" = Ret [0; 1].
Proof. reflexivity. Qed.

Example allocate_1_3_uniform :
  allocate no_exp_quota 1 3 "uniform" = Ret [-1; 1; 1].
Proof. reflexivity. Qed.

(** Share vectors that grow with the site although the quota of the first
    site is 0. *)
Example allocate_5_4_linear :
  allocate no_exp_quota 5 4 "linear" = Ret [1; 1; 1; 2].
Proof. reflexivity. Qed.

Example allocate_100_7_square :
  allocate no_exp_quota 100 7 "square" = Ret [1; 2; 6; 11; 17; 25; 38].
Proof. reflexivity. Qed.

(** A conversion that raises [OverflowError] ends the call with it. *)
Example allocate_conversion_overflow :
  allocate (fun _ _ i =>
              if (i =? 1)%nat
              then Raise (OverflowError "cannot convert float infinity to integer")
              else Ret 0)
           10 4 "exponential"
  = Raise (OverflowError "cannot convert float infinity to integer").
Proof. reflexivity. Qed.

Example allocate_unknown_method :
  allocate no_exp_quota 10 3 "cubic"
  = Raise (ValueError "Split method 'cubic' not implemented!").
Proof. reflexivity. Qed.

(** The events of the per-client loop when the train copy to [site-1]
    exits non-zero. *)
Example flaky_run_transfer_events :
  filter transfer_event (fst (example_run flaky_world))
  = [Print (msg_sending "site-1");
     Run (cmd_copy_train "inventory.ini" "site-1"
            "/tmp/t/site-1_train.pt" "/data/site-1_train.pt");
     PrintErr (msg_copy_error "site-1" "UNREACHABLE");
     Print (msg_sending "site-2");
     Run (cmd_copy_train "inventory.ini" "site-2"
            "/tmp/t/site-2_train.pt" "/data/site-2_train.pt");
     Run (cmd_copy_test "inventory.ini" "site-2" "/tmp/t/test_data.pt" "/data/test_data.pt")].
Proof. reflexivity. Qed.

(** A reset that times out: the function returns; besides printing it has
    queried the inventory, written the three shard files, run the delete
    command and removed the scratch directory. *)
Example stuck_run_effects :
  snd (example_run stuck_world) = Ret tt /\
  filter (fun e => negb (only_prints e)) (fst (example_run stuck_world))
  = [Run (cmd_inventory "inventory.ini");
     Save "/tmp/t/site-1_train.pt" (train_rows [0; 1]%nat);
     Save "/tmp/t/site-2_train.pt" (train_rows [2; 3]%nat);
     Save "/tmp/t/test_data.pt" (test_full 3);
     Run (cmd_delete_dir "inventory.ini" "/data");
     Cleanup "/tmp/t"].
Proof. split; reflexivity. Qed.

(** * More on [split_dataset_indices] *)

Lemma parse_unrecognized method :
  ~ recognized method -> parse_split_method method = None.
Proof.
  unfold recognized, parse_split_method. intros H.
  destruct (String.eqb_spec method "uniform"); [tauto|].
  destruct (String.eqb_spec method "linear"); [tauto|].
  destruct (String.eqb_spec method "square"); [tauto|].
  destruct (String.eqb_spec method "exponential"); [tauto|].
  reflexivity.
Qed.

(** X1.  A method name other than the four (the comparison is exact, so
    also one that differs by case) makes [split_dataset_indices] raise a
    [ValueError] whose message quotes the name; no group is returned. *)
Theorem unknown_method_raises exp_quota shuffle (N M : nat) (method : string) :
  ~ recognized method ->
  split_dataset_indices exp_quota shuffle N M method
  = Raise (ValueError ("Split method '" ++ method ++ "' not implemented!")%string).
Proof.
  intros H. unfold split_dataset_indices, allocate.
  now rewrite (parse_unrecognized method H).
Qed.

Lemma unknown_method_raises_witness :
  ~ recognized "Uniform" /\
  split_dataset_indices no_exp_quota (fun l => l) 10 3 "Uniform"
  = Raise (ValueError "Split method 'Uniform' not implemented!").
Proof.
  assert (H : ~ recognized "Uniform").
  { intros [H|[H|[H|H]]]; discriminate H. }
  split; [exact H|].
  exact (unknown_method_raises no_exp_quota (fun l => l) 10 3 "Uniform" H).
Defined.

Lemma NoDup_app_disjoint {A : Type} (l1 l2 : list A) (x : A) :
  NoDup (l1 ++ l2) -> In x l1 -> ~ In x l2.
Proof.
  induction l1 as [|a l1 IH]; intros Hnd Hin; [contradiction|].
  simpl in Hnd. inversion Hnd as [|? ? Ha Hnd']; subst.
  destruct Hin as [<-|Hin].
  - intros H. apply Ha. apply in_or_app. now right.
  - now apply IH.
Qed.

Lemma NoDup_concat_disjoint {A : Type} (l : list (list A)) : forall i j g h x,
  NoDup (List.concat l) -> (i < j)%nat ->
  nth_error l i = Some g -> nth_error l j = Some h ->
  In x g -> ~ In x h.
Proof.
  induction l as [|a l IH]; intros i j g h x Hnd Hij Hg Hh Hx.
  - destruct i; discriminate Hg.
  - simpl in Hnd. destruct j as [|j]; [lia|]. simpl in Hh.
    destruct i as [|i].
    + injection Hg as <-. intros Hxh.
      apply (NoDup_app_disjoint a (List.concat l) x Hnd Hx).
      apply in_concat. exists h. split; [|exact Hxh].
      apply (nth_error_In l j Hh).
    + simpl in Hg. apply (IH i j g h x); try assumption; [|lia].
      apply (NoDup_app_remove_l _ _ Hnd).
Qed.

Lemma NoDup_concat_each {A : Type} (l : list (list A)) g :
  NoDup (List.concat l) -> In g l -> NoDup g.
Proof.
  induction l as [|a l IH]; intros Hnd Hin; [contradiction|].
  simpl in Hnd. destruct Hin as [<-|Hin].
  - apply (NoDup_app_remove_r _ _ Hnd).
  - apply IH; [apply (NoDup_app_remove_l _ _ Hnd) | exact Hin].
Qed.

(** X2.  When the shuffle is a permutation, at most one sample is missing
    for one sample per site ([N + 1 >= M >= 1]) and, for [exponential], no
    conversion [int(...)] raises, the groups are a partition of the
    indices: there is one group per site, no index occurs twice in a
    group, two different groups share no index, and the indices that occur
    in some group are exactly those of [0, N). *)
Theorem groups_are_disjoint_and_cover exp_quota shuffle (N M : nat) (method : string) :
  (forall l, Permutation (shuffle l) l) ->
  (1 <= M)%nat -> (M <= N + 1)%nat -> recognized method ->
  (method = "exponential"%string -> conversions_succeed exp_quota exponential N M) ->
  exists groups,
    split_dataset_indices exp_quota shuffle N M method = Ret groups /\
    List.length groups = M /\
    (forall g, In g groups -> NoDup g) /\
    (forall i j g h x,
        i <> j -> nth_error groups i = Some g -> nth_error groups j = Some h ->
        In x g -> ~ In x h) /\
    (forall x, (x < N)%nat <-> exists g, In g groups /\ In x g).
Proof.
  intros Hperm HM HN Hrec Hexp.
  destruct (recognized_returns exp_quota method N M Hrec Hexp) as (m & _ & Hsizes).
  destruct (partition_when_samples_suffice exp_quota shuffle N M method _
              Hperm HM HN Hsizes)
    as (groups & Hg & Hlen & _ & _ & Hp & Hnd).
  exists groups. split; [exact Hg|]. split; [exact Hlen|].
  split; [|split].
  - intros g Hin. now apply (NoDup_concat_each groups).
  - intros i j g h x Hij Hi Hj Hx Hxh.
    destruct (Nat.lt_total i j) as [Hlt|[Heq|Hlt]]; [| contradiction |].
    + exact (NoDup_concat_disjoint groups i j g h x Hnd Hlt Hi Hj Hx Hxh).
    + exact (NoDup_concat_disjoint groups j i h g x Hnd Hlt Hj Hi Hxh Hx).
  - intros x. split.
    + intros Hx.
      assert (Hin : In x (List.concat groups)).
      { apply (Permutation_in x (Permutation_sym Hp)). apply in_seq. lia. }
      apply in_concat in Hin. destruct Hin as (g & Hg' & Hxg). now exists g.
    + intros (g & Hg' & Hxg).
      assert (Hin : In x (List.concat groups)) by (apply in_concat; now exists g).
      apply (Permutation_in x Hp) in Hin. apply in_seq in Hin. lia.
Qed.

Lemma groups_are_disjoint_and_cover_witness :
  (forall l : list nat, Permutation (rev l) l) /\
  (1 <= 4)%nat /\ (4 <= 3 + 1)%nat /\ recognized "linear" /\
  ("linear"%string = "exponential"%string ->
   conversions_succeed no_exp_quota exponential 3 4) /\
  exists groups,
    split_dataset_indices no_exp_quota (@rev nat) 3 4 "linear" = Ret groups /\
    List.length groups = 4%nat /\
    (forall g, In g groups -> NoDup g) /\
    (forall i j g h x,
        i <> j -> nth_error groups i = Some g -> nth_error groups j = Some h ->
        In x g -> ~ In x h) /\
    (forall x, (x < 3)%nat <-> exists g, In g groups /\ In x g).
Proof.
  assert (H0 : forall l : list nat, Permutation (rev l) l)
    by (intros l; symmetry; apply Permutation_rev).
  assert (H1 : (1 <= 4)%nat) by lia.
  assert (H2 : (4 <= 3 + 1)%nat) by lia.
  assert (H3 : recognized "linear") by (right; left; reflexivity).
  assert (H4 : "linear"%string = "exponential"%string ->
               conversions_succeed no_exp_quota exponential 3 4)
    by (intros H; discriminate H).
  repeat (split; [assumption|]).
  exact (groups_are_disjoint_and_cover no_exp_quota (@rev nat) 3 4 "linear" H0 H1 H2 H3 H4).
Defined.

Lemma shares_at_most_target q M iters : forall i left j,
  (j < iters)%nat ->
  nth j (shares q M i iters left) 0 <= Z.max 1 (q (i + j)%nat).
Proof.
  induction iters as [|k IH]; intros i left j Hj; [lia|].
  cbn [shares]. destruct j as [|j].
  - cbn [nth]. rewrite Nat.add_0_r. lia.
  - cbn [nth]. replace (i + S j)%nat with (S i + j)%nat by lia.
    apply IH. lia.
Qed.

(** X3.  Whatever the numbers of samples and sites, in a share vector that
    is returned no site before the last gets more than its target
    [max(1, int(N * w / total))]: the clamp only lowers a share, and what
    rounding leaves over goes to the last site alone. *)
Theorem share_at_most_target exp_quota (N M : nat) (method : string) (m : SplitMethod)
        (v : list Z) :
  parse_split_method method = Some m ->
  allocate exp_quota N M method = Ret v ->
  forall j z, (j < M - 1)%nat ->
              quota exp_quota m N M j = Ret z ->
              nth j v 0 <= Z.max 1 z.
Proof.
  intros Hm Hv j z Hj Hz.
  destruct (allocate_inv exp_quota method N M v Hv) as (m' & Hm' & _ & ->).
  assert (m' = m) by congruence. subst m'.
  unfold share_vector.
  pose proof (shares_at_most_target (fun i => returned (quota exp_quota m N M i))
                (Z.of_nat M) (M - 1) 0 (Z.of_nat N) j Hj) as H.
  cbn [Nat.add] in H. cbv beta in H. rewrite Hz in H. exact H.
Qed.

Lemma share_at_most_target_witness :
  parse_split_method "square" = Some square /\
  allocate no_exp_quota 8 7 "square" = Ret [1; 1; 1; 1; 1; 2; 1] /\
  (5 < 7 - 1)%nat /\
  quota no_exp_quota square 8 7 5 = Ret 2 /\
  nth 5 [1; 1; 1; 1; 1; 2; 1] 0 <= Z.max 1 2.
Proof.
  assert (H1 : parse_split_method "square" = Some square) by reflexivity.
  assert (H2 : allocate no_exp_quota 8 7 "square" = Ret [1; 1; 1; 1; 1; 2; 1])
    by reflexivity.
  assert (H3 : (5 < 7 - 1)%nat) by (simpl; lia).
  assert (H4 : quota no_exp_quota square 8 7 5 = Ret 2) by reflexivity.
  repeat (split; [assumption|]).
  exact (share_at_most_target no_exp_quota 8 7 "square" square _ H1 H2 5%nat 2 H3 H4).
Defined.

Lemma sumZ_repeat (x : Z) (n : nat) : sumZ (repeat x n) = Z.of_nat n * x.
Proof.
  induction n as [|n IH]; [reflexivity|].
  cbn [repeat sumZ fold_right]. fold (sumZ (repeat x n)). rewrite IH. lia.
Qed.

Lemma map_const_seq {A : Type} (f : nat -> A) (x : A) (n : nat) : forall i,
  (forall j, (i <= j < i + n)%nat -> f j = x) ->
  map f (seq i n) = repeat x n.
Proof.
  induction n as [|n IH]; intros i H; [reflexivity|].
  cbn [seq map repeat]. rewrite H by lia. f_equal.
  apply IH. intros j Hj. apply H. lia.
Qed.

Lemma uniform_quota exp_quota (N M i : nat) :
  (i < M)%nat ->
  quota exp_quota uniform N M i = Ret (Z.of_nat N / Z.of_nat M).
Proof.
  intros Hi. unfold quota, exact_quota. cbn [ratio_vec]. f_equal.
  rewrite nth_repeat_lt by exact Hi. rewrite sumZ_repeat.
  rewrite !Z.mul_1_r. apply Z.quot_div_nonneg; lia.
Qed.

(** X4.  The [uniform] method with at least as many samples as sites gives
    every site but the last the quotient [N / M], and the last site the
    quotient plus the remainder [N mod M]. *)
Theorem uniform_shares exp_quota (N M : nat) :
  (1 <= M)%nat -> (M <= N)%nat ->
  allocate exp_quota N M "uniform"
  = Ret (repeat (Z.of_nat N / Z.of_nat M) (M - 1)
         ++ [Z.of_nat N / Z.of_nat M + Z.of_nat N mod Z.of_nat M]).
Proof.
  intros HM HN.
  rewrite (allocate_returns exp_quota "uniform" uniform N M eq_refl)
    by (apply exact_conversions_succeed; discriminate).
  f_equal. unfold share_vector.
  set (d := Z.of_nat N / Z.of_nat M).
  assert (Hd : 1 <= d).
  { unfold d. apply Z.div_le_lower_bound; lia. }
  assert (Hq : forall j, (j < M)%nat -> returned (quota exp_quota uniform N M j) = d).
  { intros j Hj. now rewrite uniform_quota. }
  assert (Hmod : Z.of_nat N = Z.of_nat M * d + Z.of_nat N mod Z.of_nat M).
  { unfold d. apply Z.div_mod. lia. }
  pose proof (Z.mod_pos_bound (Z.of_nat N) (Z.of_nat M) ltac:(lia)) as Hr.
  destruct M as [|k]; [lia|]. replace (S k - 1)%nat with k by lia.
  rewrite shares_exact.
  - rewrite (map_const_seq _ d k 0) by (intros j Hj; apply Hq; lia).
    rewrite sumZ_repeat. f_equal. f_equal. lia.
  - lia.
  - intros j Hj. rewrite Hq by lia. exact Hd.
  - rewrite (map_const_seq _ d (S k) 0) by (intros j Hj; apply Hq; lia).
    rewrite sumZ_repeat. lia.
Qed.

Lemma uniform_shares_witness :
  (1 <= 3)%nat /\ (3 <= 10)%nat /\
  allocate no_exp_quota 10 3 "uniform"
  = Ret (repeat (Z.of_nat 10 / Z.of_nat 3) (3 - 1)
         ++ [Z.of_nat 10 / Z.of_nat 3 + Z.of_nat 10 mod Z.of_nat 3]).
Proof.
  assert (H1 : (1 <= 3)%nat) by lia.
  assert (H2 : (3 <= 10)%nat) by lia.
  split; [exact H1|]. split; [exact H2|].
  exact (uniform_shares no_exp_quota 10 3 H1 H2).
Defined.

(** X5.  With exactly as many samples as sites, every site gets one
    sample, whatever the method and its weights -- for [exponential], when
    no conversion [int(...)] raises. *)
Theorem one_sample_each exp_quota (M : nat) (method : string) :
  (1 <= M)%nat -> recognized method ->
  (method = "exponential"%string -> conversions_succeed exp_quota exponential M M) ->
  allocate exp_quota M M method = Ret (repeat 1 M).
Proof.
  intros HM Hrec Hexp.
  destruct (recognized_returns exp_quota method M M Hrec Hexp) as (m & _ & Hv).
  rewrite Hv. f_equal. unfold share_vector.
  rewrite shares_ones by lia.
  f_equal. lia.
Qed.

Lemma one_sample_each_witness :
  (1 <= 5)%nat /\ recognized "exponential" /\
  ("exponential"%string = "exponential"%string ->
   conversions_succeed (fun _ _ i => Ret (40 * Z.of_nat i)) exponential 5 5) /\
  allocate (fun _ _ i => Ret (40 * Z.of_nat i)) 5 5 "exponential" = Ret (repeat 1 5).
Proof.
  assert (H1 : (1 <= 5)%nat) by lia.
  assert (H2 : recognized "exponential") by (right; right; right; reflexivity).
  assert (H3 : "exponential"%string = "exponential"%string ->
               conversions_succeed (fun _ _ i => Ret (40 * Z.of_nat i)) exponential 5 5).
  { intros _ i Hi. eexists. unfold quota. cbn [ratio_vec].
    destruct i as [|[|[|[|i]]]]; try reflexivity. simpl in Hi. lia. }
  split; [exact H1|]. split; [exact H2|]. split; [exact H3|].
  exact (one_sample_each (fun _ _ i => Ret (40 * Z.of_nat i)) 5 "exponential" H1 H2 H3).
Defined.

(** X6.  With one site, and also with none, the result is a single group
    that holds the whole shuffled index array. *)
Theorem single_group_holds_everything exp_quota shuffle (N M : nat) (method : string) :
  (forall l, Permutation (shuffle l) l) ->
  (M <= 1)%nat -> recognized method ->
  split_dataset_indices exp_quota shuffle N M method = Ret [shuffle (seq 0 N)].
Proof.
  intros Hperm HM Hrec. destruct (recognized_parse method Hrec) as [m Hm].
  unfold split_dataset_indices, allocate. rewrite Hm.
  assert (Hlen : List.length (shuffle (seq 0 N)) = N).
  { rewrite (Permutation_length (Hperm (seq 0 N))). apply length_seq. }
  assert (Hs : split_sizes exp_quota m N M = Ret [Z.of_nat N]).
  { unfold split_sizes. replace (M - 1)%nat with 0%nat by lia. reflexivity. }
  rewrite Hs. cbn [slice_groups]. f_equal. f_equal.
  rewrite py_slice_in_range by lia.
  rewrite Nat2Z.id. cbn [Z.to_nat skipn].
  rewrite <- Hlen at 1. apply firstn_all.
Qed.

Lemma single_group_holds_everything_witness :
  (forall l : list nat, Permutation (rev l) l) /\
  (0 <= 1)%nat /\ recognized "square" /\
  split_dataset_indices no_exp_quota (@rev nat) 4 0 "square" = Ret [rev (seq 0 4)].
Proof.
  assert (H0 : forall l : list nat, Permutation (rev l) l)
    by (intros l; symmetry; apply Permutation_rev).
  assert (H1 : (0 <= 1)%nat) by lia.
  assert (H2 : recognized "square") by (right; right; left; reflexivity).
  split; [exact H0|]. split; [exact H1|]. split; [exact H2|].
  exact (single_group_holds_everything no_exp_quota (@rev nat) 4 0 "square" H0 H1 H2).
Defined.

Lemma quota_first_at_least_one (m : SplitMethod) (N M : nat) (rv : list Z) :
  (1 <= M)%nat -> ratio_vec m M = Exact rv -> sumZ rv <= Z.of_nat N ->
  1 <= exact_quota rv N 0.
Proof.
  intros HM Hrv HN.
  destruct (ratio_vec_shape m M rv Hrv) as (Hlen & Hpos & _).
  assert (HS : 0 < sumZ rv).
  { apply sumZ_pos; [|exact Hpos]. intros ->. simpl in Hlen. lia. }
  unfold exact_quota. cbv zeta.
  assert (Hw : 0 < nth 0 rv 0).
  { rewrite Forall_forall in Hpos. apply Hpos. apply nth_In. lia. }
  rewrite Z.quot_div_nonneg by nia.
  apply Z.div_le_lower_bound; nia.
Qed.

(** X7.  For the methods with integer weights ([uniform], [linear],
    [square]), when there are at least as many samples as the weights sum
    to, neither the floor of 1 nor the clamp changes anything: every site
    but the last gets exactly its quota [int(N * w / total)], and the last
    site gets the rest, which is at least its own quota. *)
Theorem shares_are_the_quotas exp_quota (N M : nat) (method : string)
        (m : SplitMethod) (rv : list Z) :
  (1 <= M)%nat ->
  parse_split_method method = Some m ->
  ratio_vec m M = Exact rv ->
  sumZ rv <= Z.of_nat N ->
  let q := exact_quota rv N in
  let rest := Z.of_nat N - sumZ (map q (seq 0 (M - 1))) in
  (forall i, quota exp_quota m N M i = Ret (q i)) /\
  allocate exp_quota N M method = Ret (map q (seq 0 (M - 1)) ++ [rest]) /\
  q (M - 1)%nat <= rest.
Proof.
  intros HM Hm Hrv HN q rest. subst q rest.
  split; [intros i; unfold quota; now rewrite Hrv|].
  pose proof (quota_first_at_least_one m N M rv HM Hrv HN) as H0.
  destruct (exact_quotas_regular m N M rv HM Hrv) as [Hmono Hsum].
  rewrite (allocate_returns exp_quota method m N M Hm)
    by (apply exact_conversions_succeed; intros ->; discriminate Hrv).
  unfold share_vector, quota. rewrite Hrv. cbn [returned].
  change (fun i : nat => exact_quota rv N i) with (exact_quota rv N).
  destruct M as [|k]; [lia|]. replace (S k - 1)%nat with k by lia.
  unfold quotas in Hsum.
  rewrite shares_exact; [| lia | | exact Hsum].
  - split; [reflexivity|].
    rewrite seq_S, map_app in Hsum. cbn [map Nat.add] in Hsum.
    assert (Hs : forall l a, sumZ (l ++ [a]) = sumZ l + a).
    { intros l a. unfold sumZ. rewrite fold_right_app. simpl.
      induction l as [|x l IHl]; simpl; lia. }
    rewrite Hs in Hsum. lia.
  - intros j Hj.
    pose proof (nondecreasing_from_first _ (S k) Hmono j ltac:(lia)). lia.
Qed.

Lemma shares_are_the_quotas_witness :
  (1 <= 4)%nat /\
  parse_split_method "linear" = Some linear /\
  ratio_vec linear 4 = Exact [1; 2; 3; 4] /\
  sumZ [1; 2; 3; 4] <= Z.of_nat 23 /\
  let q := exact_quota [1; 2; 3; 4] 23 in
  let rest := Z.of_nat 23 - sumZ (map q (seq 0 (4 - 1))) in
  (forall i, quota no_exp_quota linear 23 4 i = Ret (q i)) /\
  allocate no_exp_quota 23 4 "linear" = Ret (map q (seq 0 (4 - 1)) ++ [rest]) /\
  q (4 - 1)%nat <= rest.
Proof.
  assert (H1 : (1 <= 4)%nat) by lia.
  assert (H2 : parse_split_method "linear" = Some linear) by reflexivity.
  assert (H3 : ratio_vec linear 4 = Exact [1; 2; 3; 4]) by reflexivity.
  assert (H4 : sumZ [1; 2; 3; 4] <= Z.of_nat 23) by (vm_compute; discriminate).
  repeat (split; [assumption|]).
  exact (shares_are_the_quotas no_exp_quota 23 4 "linear" linear [1; 2; 3; 4] H1 H2 H3 H4).
Defined.

(** * More on [split_and_distribute] *)

Lemma in_bind {A B : Type} (p : prog A) (k : A -> prog B) (e : event) :
  In e (fst (bind p k)) <->
  In e (fst p) \/ exists a, snd p = Ret a /\ In e (fst (k a)).
Proof.
  destruct p as [t [a|x]]; simpl.
  - destruct (k a) as [t' r] eqn:E. simpl. rewrite in_app_iff. split.
    + intros [H|H]; [now left|]. right. exists a. rewrite E. now split.
    + intros [H|(a' & Ha & H)]; [now left|].
      injection Ha as <-. rewrite E in H. now right.
  - split; [now left|]. intros [H|(a' & Ha & _)]; [exact H | discriminate Ha].
Qed.

Lemma in_try_catch {A : Type} (p : prog A) h (e : event) :
  In e (fst (try_catch p h)) <->
  In e (fst p) \/ exists x k, snd p = Raise x /\ h x = Some k /\ In e (fst k).
Proof.
  destruct p as [t [a|x]]; simpl.
  - split; [now left|]. intros [H|(x & k & Hx & _)]; [exact H | discriminate Hx].
  - destruct (h x) as [[t' r]|] eqn:E; simpl.
    + rewrite in_app_iff. split.
      * intros [H|H]; [now left|]. right. exists x, (t', r). now repeat split.
      * intros [H|(x' & k & Hx & Hk & H)]; [now left|].
        injection Hx as <-. rewrite E in Hk. injection Hk as <-. now right.
    + split; [now left|]. intros [H|(x' & k & Hx & Hk & _)]; [exact H|].
      injection Hx as <-. rewrite E in Hk. discriminate Hk.
Qed.

Lemma query_clients_early (w : world) inventory_path :
  Forall (early_event inventory_path) (fst (query_clients w inventory_path)).
Proof.
  unfold query_clients, run, early_event.
  destruct (respond w (cmd_inventory inventory_path)) as [|[]];
    destruct (inventory_stdout w) as [|[[l|]|]]; simpl;
    try destruct (List.length l =? 0)%nat; simpl;
    repeat (constructor; [first [now left | now right]|]); constructor.
Qed.

(** What [query_clients] answers with when it names clients. *)
Lemma query_clients_some (w : world) inventory_path client_names :
  snd (query_clients w inventory_path) = Ret (Some client_names) ->
  respond w (cmd_inventory inventory_path) = Completed /\
  inventory_stdout w = parsed (Some (Some client_names)) /\
  client_names <> [].
Proof.
  unfold query_clients, run.
  destruct (respond w (cmd_inventory inventory_path)) as [|[]];
    destruct (inventory_stdout w) as [|[[l|]|]]; simpl;
    try (destruct l as [|c l]; simpl); intros H; try discriminate H.
  injection H as <-. repeat split. discriminate.
Qed.

(** X8.  When the inventory file does not exist, the function returns
    having only printed: no command is run, the inventory query included,
    and no file is written. *)
Theorem missing_inventory_only_prints exp_quota shuffle (w : world)
        (len_train_data len_train_labels len_test_data len_test_labels : nat)
        (inventory_path split_method remote_dest_path : string) :
  inventory_exists w inventory_path = false ->
  exists t,
    split_and_distribute exp_quota shuffle w
      len_train_data len_train_labels len_test_data len_test_labels
      inventory_path split_method remote_dest_path = (t, Ret tt) /\
    Forall (fun e => only_prints e = true) t.
Proof.
  intros H. unfold split_and_distribute. rewrite H.
  destruct (len_train_data =? len_train_labels)%nat;
    destruct (len_test_data =? len_test_labels)%nat; simpl;
    eexists; (split; [reflexivity | repeat constructor]).
Qed.

Lemma missing_inventory_only_prints_witness :
  inventory_exists (world_of false (fun _ => Completed) bad_json) "inventory.ini" = false /\
  exists t,
    split_and_distribute no_exp_quota (fun l => l)
      (world_of false (fun _ => Completed) bad_json) 4 4 3 3
      "inventory.ini" "uniform" "/data" = (t, Ret tt) /\
    Forall (fun e => only_prints e = true) t.
Proof.
  assert (H : inventory_exists (world_of false (fun _ => Completed) bad_json)
                "inventory.ini" = false) by reflexivity.
  split; [exact H|].
  exact (missing_inventory_only_prints no_exp_quota (fun l => l)
           (world_of false (fun _ => Completed) bad_json) 4 4 3 3
           "inventory.ini" "uniform" "/data" H).
Defined.

Section NoClients.

Variable exp_quota : nat -> nat -> nat -> result Z.
Variable shuffle : list nat -> list nat.
Variable w : world.
Variables len_train_data len_train_labels len_test_data len_test_labels : nat.
Variables inventory_path split_method remote_dest_path : string.

(** When the inventory step names no client, the run ends there. *)
Lemma run_without_clients :
  snd (query_clients w inventory_path) = Ret None ->
  exists t,
    split_and_distribute exp_quota shuffle w
      len_train_data len_train_labels len_test_data len_test_labels
      inventory_path split_method remote_dest_path = (t, Ret tt) /\
    Forall (early_event inventory_path) t.
Proof.
  intros H. unfold split_and_distribute.
  destruct (len_train_data =? len_train_labels)%nat;
    [| simpl; eexists; split; [reflexivity | repeat (constructor; [now left|]); constructor]].
  destruct (len_test_data =? len_test_labels)%nat;
    [| simpl; eexists; split; [reflexivity | repeat (constructor; [now left|]); constructor]].
  destruct (inventory_exists w inventory_path);
    [| simpl; eexists; split; [reflexivity | repeat (constructor; [now left|]); constructor]].
  pose proof (query_clients_early w inventory_path) as Hq.
  destruct (query_clients w inventory_path) as [tq rq]. simpl in H, Hq. subst rq.
  simpl. eexists. split; [reflexivity|].
  constructor; [now left|]. constructor; [now left|].
  rewrite app_nil_r. exact Hq.
Qed.

End NoClients.

(** X9.  When the inventory query exits non-zero, or returns but prints
    something that is not JSON, the function returns; it has run no other
    command and written no file. *)
Theorem failed_inventory_query_returns exp_quota shuffle (w : world)
        (len_train_data len_train_labels len_test_data len_test_labels : nat)
        (inventory_path split_method remote_dest_path : string) :
  (exists stderr, respond w (cmd_inventory inventory_path)
                  = Raises (CalledProcessError stderr)) \/
  (respond w (cmd_inventory inventory_path) = Completed /\
   inventory_stdout w = bad_json) ->
  exists t,
    split_and_distribute exp_quota shuffle w
      len_train_data len_train_labels len_test_data len_test_labels
      inventory_path split_method remote_dest_path = (t, Ret tt) /\
    Forall (early_event inventory_path) t.
Proof.
  intros H. apply run_without_clients.
  unfold query_clients, run.
  destruct H as [[s H]|[H1 H2]].
  - rewrite H. reflexivity.
  - rewrite H1, H2. reflexivity.
Qed.

Lemma failed_inventory_query_returns_witness :
  ((exists stderr,
       respond (world_of true (fun _ => Raises (CalledProcessError "no such group")) bad_json)
               (cmd_inventory "inventory.ini")
       = Raises (CalledProcessError stderr)) \/
   (respond (world_of true (fun _ => Raises (CalledProcessError "no such group")) bad_json)
            (cmd_inventory "inventory.ini") = Completed /\
    inventory_stdout (world_of true (fun _ => Raises (CalledProcessError "no such group"))
                               bad_json) = bad_json)) /\
  exists t,
    split_and_distribute no_exp_quota (fun l => l)
      (world_of true (fun _ => Raises (CalledProcessError "no such group")) bad_json)
      4 4 3 3 "inventory.ini" "uniform" "/data" = (t, Ret tt) /\
    Forall (early_event "inventory.ini") t.
Proof.
  assert (H : (exists stderr,
       respond (world_of true (fun _ => Raises (CalledProcessError "no such group")) bad_json)
               (cmd_inventory "inventory.ini")
       = Raises (CalledProcessError stderr)) \/
   (respond (world_of true (fun _ => Raises (CalledProcessError "no such group")) bad_json)
            (cmd_inventory "inventory.ini") = Completed /\
    inventory_stdout (world_of true (fun _ => Raises (CalledProcessError "no such group"))
                               bad_json) = bad_json))
    by (left; exists "no such group"%string; reflexivity).
  split; [exact H|].
  exact (failed_inventory_query_returns no_exp_quota (fun l => l)
           (world_of true (fun _ => Raises (CalledProcessError "no such group")) bad_json)
           4 4 3 3 "inventory.ini" "uniform" "/data" H).
Defined.

(** X10.  When the inventory listing has no group [nvflare_clients], or
    the group has no key [hosts], or its list of hosts is empty, the
    function returns; it has run no other command and written no file. *)
Theorem inventory_without_clients_returns exp_quota shuffle (w : world)
        (len_train_data len_train_labels len_test_data len_test_labels : nat)
        (inventory_path split_method remote_dest_path : string) :
  respond w (cmd_inventory inventory_path) = Completed ->
  inventory_stdout w = parsed None \/
  inventory_stdout w = parsed (Some None) \/
  inventory_stdout w = parsed (Some (Some [])) ->
  exists t,
    split_and_distribute exp_quota shuffle w
      len_train_data len_train_labels len_test_data len_test_labels
      inventory_path split_method remote_dest_path = (t, Ret tt) /\
    Forall (early_event inventory_path) t.
Proof.
  intros Hq H. apply run_without_clients.
  unfold query_clients, run. rewrite Hq.
  destruct H as [H|[H|H]]; rewrite H; reflexivity.
Qed.

Lemma inventory_without_clients_returns_witness :
  respond (world_of true (fun _ => Completed) (parsed (Some (Some []))))
          (cmd_inventory "inventory.ini") = Completed /\
  (inventory_stdout (world_of true (fun _ => Completed) (parsed (Some (Some []))))
   = parsed None \/
   inventory_stdout (world_of true (fun _ => Completed) (parsed (Some (Some []))))
   = parsed (Some None) \/
   inventory_stdout (world_of true (fun _ => Completed) (parsed (Some (Some []))))
   = parsed (Some (Some []))) /\
  exists t,
    split_and_distribute no_exp_quota (fun l => l)
      (world_of true (fun _ => Completed) (parsed (Some (Some []))))
      4 4 3 3 "inventory.ini" "uniform" "/data" = (t, Ret tt) /\
    Forall (early_event "inventory.ini") t.
Proof.
  assert (H1 : respond (world_of true (fun _ => Completed) (parsed (Some (Some []))))
                       (cmd_inventory "inventory.ini") = Completed) by reflexivity.
  assert (H2 : inventory_stdout (world_of true (fun _ => Completed) (parsed (Some (Some []))))
               = parsed None \/
               inventory_stdout (world_of true (fun _ => Completed) (parsed (Some (Some []))))
               = parsed (Some None) \/
               inventory_stdout (world_of true (fun _ => Completed) (parsed (Some (Some []))))
               = parsed (Some (Some [])))
    by (right; right; reflexivity).
  split; [exact H1|]. split; [exact H2|].
  exact (inventory_without_clients_returns no_exp_quota (fun l => l)
           (world_of true (fun _ => Completed) (parsed (Some (Some []))))
           4 4 3 3 "inventory.ini" "uniform" "/data" H1 H2).
Defined.

(** X11.  With data and labels of equal lengths and an inventory file that
    exists, an exception of the inventory query that is neither a non-zero
    exit nor a JSON error -- the timeout of ten seconds, a missing
    executable -- is not handled: it leaves the function, after the query
    and before anything is written. *)
Theorem inventory_timeout_propagates exp_quota shuffle (w : world)
        (len_train_data len_test_data : nat)
        (inventory_path split_method remote_dest_path : string) (e : exn) :
  inventory_exists w inventory_path = true ->
  respond w (cmd_inventory inventory_path) = Raises e ->
  not_handled_by_query e ->
  split_and_distribute exp_quota shuffle w
    len_train_data len_train_data len_test_data len_test_data
    inventory_path split_method remote_dest_path
  = ([Print msg_starting; Print msg_validating; Print (msg_querying inventory_path);
      Run (cmd_inventory inventory_path)],
     Raise e).
Proof.
  intros Hinv Hq He. unfold split_and_distribute.
  rewrite !Nat.eqb_refl, Hinv. cbn [negb].
  unfold query_clients, run. rewrite Hq.
  destruct e; simpl in He; try contradiction; reflexivity.
Qed.

Lemma inventory_timeout_propagates_witness :
  inventory_exists (world_of true (fun _ => Raises TimeoutExpired) bad_json)
                   "inventory.ini" = true /\
  respond (world_of true (fun _ => Raises TimeoutExpired) bad_json)
          (cmd_inventory "inventory.ini") = Raises TimeoutExpired /\
  not_handled_by_query TimeoutExpired /\
  split_and_distribute no_exp_quota (fun l => l)
    (world_of true (fun _ => Raises TimeoutExpired) bad_json)
    4 4 3 3 "inventory.ini" "uniform" "/data"
  = ([Print msg_starting; Print msg_validating; Print (msg_querying "inventory.ini");
      Run (cmd_inventory "inventory.ini")],
     Raise TimeoutExpired).
Proof.
  assert (H1 : inventory_exists (world_of true (fun _ => Raises TimeoutExpired) bad_json)
                                "inventory.ini" = true) by reflexivity.
  assert (H2 : respond (world_of true (fun _ => Raises TimeoutExpired) bad_json)
                       (cmd_inventory "inventory.ini") = Raises TimeoutExpired) by reflexivity.
  assert (H3 : not_handled_by_query TimeoutExpired) by exact I.
  split; [exact H1|]. split; [exact H2|]. split; [exact H3|].
  exact (inventory_timeout_propagates no_exp_quota (fun l => l)
           (world_of true (fun _ => Raises TimeoutExpired) bad_json)
           4 3 "inventory.ini" "uniform" "/data" TimeoutExpired H1 H2 H3).
Defined.

(** X12.  With data and labels of equal lengths and an inventory that
    names clients, a method name other than the four is found out only
    after the inventory was queried and the scratch directory created: the
    [ValueError] leaves the function; the scratch directory is removed;
    no file was written and no remote command run. *)
Theorem unknown_method_stops_the_run exp_quota shuffle (w : world)
        (len_train_data len_test_data : nat)
        (inventory_path split_method remote_dest_path : string)
        (client_names : list string) :
  inventory_exists w inventory_path = true ->
  respond w (cmd_inventory inventory_path) = Completed ->
  inventory_stdout w = parsed (Some (Some client_names)) ->
  client_names <> [] ->
  ~ recognized split_method ->
  split_and_distribute exp_quota shuffle w
    len_train_data len_train_data len_test_data len_test_data
    inventory_path split_method remote_dest_path
  = ([Print msg_starting; Print msg_validating; Print (msg_querying inventory_path);
      Run (cmd_inventory inventory_path);
      Print (msg_found_clients (List.length client_names) client_names);
      Print (msg_creating_splits (temp_dir w));
      Cleanup (temp_dir w)],
     Raise (ValueError ("Split method '" ++ split_method ++ "' not implemented!")%string)).
Proof.
  intros Hinv Hq Hout Hne Hrec. unfold split_and_distribute.
  rewrite !Nat.eqb_refl, Hinv. cbn [negb].
  unfold query_clients, run. rewrite Hq, Hout.
  destruct client_names as [|c l]; [congruence|].
  unfold split_dataset_indices_call, allocate.
  rewrite (parse_unrecognized split_method Hrec).
  reflexivity.
Qed.

Lemma unknown_method_stops_the_run_witness :
  inventory_exists calm_world "inventory.ini" = true /\
  respond calm_world (cmd_inventory "inventory.ini") = Completed /\
  inventory_stdout calm_world = parsed (Some (Some ["site-1"; "site-2"]%string)) /\
  ["site-1"; "site-2"]%string <> [] /\
  ~ recognized "cubic" /\
  split_and_distribute no_exp_quota (fun l => l) calm_world
    4 4 3 3 "inventory.ini" "cubic" "/data"
  = ([Print msg_starting; Print msg_validating; Print (msg_querying "inventory.ini");
      Run (cmd_inventory "inventory.ini");
      Print (msg_found_clients (List.length ["site-1"; "site-2"]%string)
                               ["site-1"; "site-2"]%string);
      Print (msg_creating_splits (temp_dir calm_world));
      Cleanup (temp_dir calm_world)],
     Raise (ValueError ("Split method '" ++ "cubic" ++ "' not implemented!")%string)).
Proof.
  assert (H1 : inventory_exists calm_world "inventory.ini" = true) by reflexivity.
  assert (H2 : respond calm_world (cmd_inventory "inventory.ini") = Completed) by reflexivity.
  assert (H3 : inventory_stdout calm_world
               = parsed (Some (Some ["site-1"; "site-2"]%string))) by reflexivity.
  assert (H4 : ["site-1"; "site-2"]%string <> []) by discriminate.
  assert (H5 : ~ recognized "cubic").
  { intros [H|[H|[H|H]]]; discriminate H. }
  repeat (split; [assumption|]).
  exact (unknown_method_stops_the_run no_exp_quota (fun l => l) calm_world
           4 3 "inventory.ini" "cubic" "/data" ["site-1"; "site-2"]%string
           H1 H2 H3 H4 H5).
Defined.

(** X24.  With data and labels of equal lengths and an inventory that
    names clients, when the split raises -- the [ValueError] of an unknown
    method, or the exception of a conversion [int(...)] -- the exception
    leaves the function after the scratch directory was created and
    removed; no file was written and no remote command run. *)
Theorem failed_split_stops_the_run exp_quota shuffle (w : world)
        (len_train_data len_test_data : nat)
        (inventory_path split_method remote_dest_path : string)
        (client_names : list string) (e : exn) :
  inventory_exists w inventory_path = true ->
  respond w (cmd_inventory inventory_path) = Completed ->
  inventory_stdout w = parsed (Some (Some client_names)) ->
  client_names <> [] ->
  allocate exp_quota len_train_data (List.length client_names) split_method = Raise e ->
  split_and_distribute exp_quota shuffle w
    len_train_data len_train_data len_test_data len_test_data
    inventory_path split_method remote_dest_path
  = ([Print msg_starting; Print msg_validating; Print (msg_querying inventory_path);
      Run (cmd_inventory inventory_path);
      Print (msg_found_clients (List.length client_names) client_names);
      Print (msg_creating_splits (temp_dir w));
      Cleanup (temp_dir w)],
     Raise e).
Proof.
  intros Hinv Hq Hout Hne Hraise. unfold split_and_distribute.
  rewrite !Nat.eqb_refl, Hinv. cbn [negb].
  unfold query_clients, run. rewrite Hq, Hout.
  destruct client_names as [|c l]; [congruence|].
  unfold split_dataset_indices_call.
  cbn [List.length] in Hraise. cbn [try_catch bind emit ret List.length Nat.eqb].
  rewrite Hraise. reflexivity.
Qed.

Lemma failed_split_stops_the_run_witness :
  inventory_exists calm_world "inventory.ini" = true /\
  respond calm_world (cmd_inventory "inventory.ini") = Completed /\
  inventory_stdout calm_world = parsed (Some (Some ["site-1"; "site-2"]%string)) /\
  ["site-1"; "site-2"]%string <> [] /\
  allocate no_exp_quota 4 (List.length ["site-1"; "site-2"]%string) "Linear"
  = Raise (ValueError "Split method 'Linear' not implemented!") /\
  split_and_distribute no_exp_quota (fun l => l) calm_world
    4 4 3 3 "inventory.ini" "Linear" "/data"
  = ([Print msg_starting; Print msg_validating; Print (msg_querying "inventory.ini");
      Run (cmd_inventory "inventory.ini");
      Print (msg_found_clients (List.length ["site-1"; "site-2"]%string)
                               ["site-1"; "site-2"]%string);
      Print (msg_creating_splits (temp_dir calm_world));
      Cleanup (temp_dir calm_world)],
     Raise (ValueError "Split method 'Linear' not implemented!")).
Proof.
  assert (H1 : inventory_exists calm_world "inventory.ini" = true) by reflexivity.
  assert (H2 : respond calm_world (cmd_inventory "inventory.ini") = Completed) by reflexivity.
  assert (H3 : inventory_stdout calm_world
               = parsed (Some (Some ["site-1"; "site-2"]%string))) by reflexivity.
  assert (H4 : ["site-1"; "site-2"]%string <> []) by discriminate.
  assert (H5 : allocate no_exp_quota 4 (List.length ["site-1"; "site-2"]%string) "Linear"
               = Raise (ValueError "Split method 'Linear' not implemented!"))
    by reflexivity.
  repeat (split; [assumption|]).
  exact (failed_split_stops_the_run no_exp_quota (fun l => l) calm_world
           4 3 "inventory.ini" "Linear" "/data" ["site-1"; "site-2"]%string _
           H1 H2 H3 H4 H5).
Defined.

(** ** What each step of the run can emit *)

Section StepEvents.

Variable exp_quota : nat -> nat -> nat -> result Z.
Variable shuffle : list nat -> list nat.
Variable w : world.
Variable P : event -> Prop.
Hypothesis P_print : forall m, P (Print m).

Lemma split_call_events N M method :
  Forall P (fst (split_dataset_indices_call exp_quota shuffle N M method)).
Proof.
  unfold split_dataset_indices_call.
  destruct (allocate exp_quota N M method); simpl; repeat constructor; apply P_print.
Qed.

Lemma save_events s file_path :
  (forall f x, P (Save f x)) ->
  Forall P (fst (_save_tensors_to_pt w s file_path)).
Proof.
  intros P_save. unfold _save_tensors_to_pt.
  destruct (save_outcome w file_path); simpl; repeat constructor;
    first [apply P_print | apply P_save].
Qed.

Lemma save_train_shards_events groups client_names : forall i,
  (forall f x, P (Save f x)) ->
  Forall P (fst (save_train_shards w groups i client_names)).
Proof.
  intros i P_save. revert i.
  induction client_names as [|c l IH]; intros i; simpl; [constructor|].
  destruct (nth_error groups i); [|constructor].
  apply Forall_bind; [now apply save_events|]. intros _ _. apply IH.
Qed.

Lemma reset_remote_events inventory_path remote_dest_path :
  (forall m, P (PrintErr m)) ->
  P (Run (cmd_delete_dir inventory_path remote_dest_path)) ->
  P (Run (cmd_create_dir inventory_path remote_dest_path)) ->
  Forall P (fst (reset_remote w inventory_path remote_dest_path)).
Proof.
  intros P_err P_del P_cre. unfold reset_remote, run.
  destruct (respond w (cmd_delete_dir inventory_path remote_dest_path));
    destruct (respond w (cmd_create_dir inventory_path remote_dest_path));
    simpl; repeat constructor; first [apply P_print | apply P_err | assumption].
Qed.

Lemma send_files_events inventory_path remote_dest_path c :
  (forall m, P (PrintErr m)) ->
  P (Run (copy_train_of w inventory_path remote_dest_path c)) ->
  P (Run (copy_test_of w inventory_path remote_dest_path c)) ->
  Forall P (fst (send_files w inventory_path remote_dest_path c)).
Proof.
  intros P_err P_train P_test. unfold send_files, run.
  destruct (respond w (copy_train_of w inventory_path remote_dest_path c)) as [|[]];
    destruct (respond w (copy_test_of w inventory_path remote_dest_path c)) as [|[]];
    simpl; repeat constructor; first [apply P_print | apply P_err | assumption].
Qed.

Lemma send_all_events inventory_path remote_dest_path client_names :
  (forall m, P (PrintErr m)) ->
  (forall c, In c client_names ->
             P (Run (copy_train_of w inventory_path remote_dest_path c)) /\
             P (Run (copy_test_of w inventory_path remote_dest_path c))) ->
  Forall P (fst (send_all w inventory_path remote_dest_path client_names)).
Proof.
  intros P_err. induction client_names as [|c l IH]; intros Hc; simpl; [constructor|].
  apply Forall_bind.
  - apply send_files_events; [exact P_err | apply Hc; now left | apply Hc; now left].
  - intros _ _. apply IH. intros c' Hc'. apply Hc. now right.
Qed.

End StepEvents.

Lemma fst_with_temp_dir {A : Type} (w : world) (body : prog A) :
  fst (with_temp_dir w body) = fst body ++ [Cleanup (temp_dir w)].
Proof. unfold with_temp_dir. now destruct body. Qed.

Lemma snd_with_temp_dir {A : Type} (w : world) (body : prog A) :
  snd (with_temp_dir w body) = snd body.
Proof. unfold with_temp_dir. now destruct body. Qed.

(** X13.  On every path, with any answers of the outside world and
    whether the function returns or an exception leaves it: either the run
    only printed and queried the inventory, or its trace is such events,
    then the events that use the scratch directory, then the removal of
    the scratch directory, then printing only.  So every file write and
    every remote reset or copy command is followed by the removal. *)
Theorem scratch_directory_always_removed exp_quota shuffle (w : world)
        (len_train_data len_train_labels len_test_data len_test_labels : nat)
        (inventory_path split_method remote_dest_path : string) :
  let t := fst (split_and_distribute exp_quota shuffle w
                  len_train_data len_train_labels len_test_data len_test_labels
                  inventory_path split_method remote_dest_path) in
  Forall (early_event inventory_path) t \/
  exists pre used post,
    t = pre ++ used ++ Cleanup (temp_dir w) :: post /\
    Forall (early_event inventory_path) pre /\
    Forall (fun e => only_prints e = true) post.
Proof.
  intros t. subst t. unfold split_and_distribute.
  destruct (len_train_data =? len_train_labels)%nat;
    [| left; simpl; repeat (constructor; [now left|]); constructor].
  destruct (len_test_data =? len_test_labels)%nat;
    [| left; simpl; repeat (constructor; [now left|]); constructor].
  destruct (inventory_exists w inventory_path);
    [| left; simpl; repeat (constructor; [now left|]); constructor].
  cbn [negb].
  pose proof (query_clients_early w inventory_path) as Hq.
  destruct (query_clients w inventory_path) as [tq [[names|]|e]]; simpl in Hq.
  - right. cbn [bind emit].
    match goal with
    | |- context [with_temp_dir w ?b] => destruct b as [tb rb]
    end.
    exists (Print msg_starting :: Print msg_validating :: tq), tb.
    destruct rb as [[|]|e]; simpl.
    + exists [Print msg_process_complete]. split; [|split].
      * rewrite <- !app_assoc. reflexivity.
      * constructor; [now left|]. constructor; [now left|]. exact Hq.
      * repeat constructor.
    + exists []. split; [|split].
      * rewrite <- !app_assoc. reflexivity.
      * constructor; [now left|]. constructor; [now left|]. exact Hq.
      * constructor.
    + exists []. split; [|split].
      * reflexivity.
      * constructor; [now left|]. constructor; [now left|]. exact Hq.
      * constructor.
  - left. simpl. constructor; [now left|]. constructor; [now left|].
    rewrite app_nil_r. exact Hq.
  - left. simpl. constructor; [now left|]. constructor; [now left|]. exact Hq.
Qed.

Lemma query_clients_events (w : world) (P : event -> Prop) inventory_path :
  (forall m, P (Print m)) -> (forall m, P (PrintErr m)) ->
  P (Run (cmd_inventory inventory_path)) ->
  Forall P (fst (query_clients w inventory_path)).
Proof.
  intros P_print P_err P_run.
  pose proof (query_clients_early w inventory_path) as H.
  eapply Forall_impl; [|exact H].
  intros e [He| ->]; [|exact P_run].
  destruct e; try discriminate He; [apply P_print | apply P_err].
Qed.

(** When the shards of all clients were written, each write returned. *)
Lemma save_train_shards_returns (w : world) groups client_names : forall i,
  snd (save_train_shards w groups i client_names) = Ret tt ->
  forall c, In c client_names -> save_outcome w (shard_path w c) = Completed.
Proof.
  induction client_names as [|c0 l IH]; intros i Hret c Hc; [contradiction|].
  cbn [save_train_shards] in Hret.
  destruct (nth_error groups i) as [g|]; [|discriminate Hret].
  unfold _save_tensors_to_pt in Hret. fold (shard_path w c0) in Hret.
  destruct (save_outcome w (shard_path w c0)) eqn:E; [|discriminate Hret].
  cbn [bind] in Hret.
  destruct (save_train_shards w groups (S i) l) as [t' r] eqn:E'.
  cbn [snd] in Hret. subst r.
  destruct Hc as [<-|Hc]; [exact E|].
  apply (IH (S i)); [now rewrite E' | exact Hc].
Qed.

(** X14.  A file write that raises is never followed by a change on the
    clients: when writing the shard of one of the clients of the
    inventory raises, or writing the test file raises, no delete, create
    or copy command is run. *)
Theorem failed_write_no_remote_change exp_quota shuffle (w : world)
        (len_train_data len_train_labels len_test_data len_test_labels : nat)
        (inventory_path split_method remote_dest_path : string)
        (client_names : list string) :
  inventory_stdout w = parsed (Some (Some client_names)) ->
  (exists c e, In c client_names /\ save_outcome w (shard_path w c) = Raises e) \/
  (exists e, save_outcome w (path_join (temp_dir w) "test_data.pt") = Raises e) ->
  Forall (fun ev => remote_change ev = false)
    (fst (split_and_distribute exp_quota shuffle w
            len_train_data len_train_labels len_test_data len_test_labels
            inventory_path split_method remote_dest_path)).
Proof.
  intros Hout Hfail. unfold split_and_distribute.
  apply Forall_bind; [repeat constructor|intros _ _].
  apply Forall_bind; [repeat constructor|intros _ _].
  destruct (negb (len_train_data =? len_train_labels)%nat); [repeat constructor|].
  destruct (negb (len_test_data =? len_test_labels)%nat); [repeat constructor|].
  destruct (negb (inventory_exists w inventory_path)); [repeat constructor|].
  apply Forall_bind; [now apply query_clients_events|].
  intros [names|] Hq; [|constructor].
  apply query_clients_some in Hq. destruct Hq as (_ & Hq & _).
  rewrite Hout in Hq. injection Hq as Hn. subst names.
  apply Forall_bind; [|intros [|] _; repeat constructor].
  apply Forall_with_temp_dir; [|reflexivity].
  apply Forall_bind; [repeat constructor|intros _ _].
  apply Forall_bind; [now apply split_call_events|intros groups _].
  apply Forall_bind; [now apply save_train_shards_events|intros [] Htrain].
  apply Forall_bind; [repeat constructor|intros _ _].
  apply Forall_bind; [now apply save_events|intros [] Htest].
  exfalso. destruct Hfail as [(c & e & Hc & He)|[e He]].
  - rewrite (save_train_shards_returns w groups client_names 0 Htrain c Hc) in He.
    discriminate He.
  - unfold _save_tensors_to_pt in Htest. rewrite He in Htest. discriminate Htest.
Qed.

Lemma failed_write_no_remote_change_witness :
  inventory_stdout full_disk_world = parsed (Some (Some ["site-1"; "site-2"]%string)) /\
  ((exists c e,
       In c ["site-1"; "site-2"]%string /\
       save_outcome full_disk_world (shard_path full_disk_world c) = Raises e) \/
   (exists e,
       save_outcome full_disk_world (path_join (temp_dir full_disk_world) "test_data.pt")
       = Raises e)) /\
  Forall (fun ev => remote_change ev = false) (fst (example_run full_disk_world)).
Proof.
  assert (H1 : inventory_stdout full_disk_world
               = parsed (Some (Some ["site-1"; "site-2"]%string))) by reflexivity.
  assert (H2 : (exists c e,
                   In c ["site-1"; "site-2"]%string /\
                   save_outcome full_disk_world (shard_path full_disk_world c) = Raises e) \/
               (exists e,
                   save_outcome full_disk_world
                                (path_join (temp_dir full_disk_world) "test_data.pt")
                   = Raises e)).
  { left. exists "site-2"%string, OSError. split; [right; left; reflexivity | reflexivity]. }
  split; [exact H1|]. split; [exact H2|].
  exact (failed_write_no_remote_change no_exp_quota (fun l => l) full_disk_world 4 4 3 3
           "inventory.ini" "uniform" "/data" ["site-1"; "site-2"]%string H1 H2).
Defined.

Lemma quiet_excludes (t : list event) (e : event) :
  Forall quiet t -> transfer_event e = true -> ~ In e t.
Proof.
  intros Hq He Hin. rewrite Forall_forall in Hq.
  specialize (Hq e Hin). unfold quiet in Hq. congruence.
Qed.

Lemma copy_job_transfer_event e : copy_job e = true -> transfer_event e = true.
Proof.
  destruct e as [m|m|c|f s|d]; try discriminate. destruct c; try discriminate; reflexivity.
Qed.

(** The copy jobs of the loop are those of the clients it is given. *)
Lemma send_all_copy_jobs (w : world) inventory_path remote_dest_path client_names cmd :
  copy_job (Run cmd) = true ->
  In (Run cmd) (fst (send_all w inventory_path remote_dest_path client_names)) ->
  exists c, In c client_names /\
            (cmd = copy_train_of w inventory_path remote_dest_path c \/
             cmd = copy_test_of w inventory_path remote_dest_path c).
Proof.
  intros Hjob. induction client_names as [|c l IH]; intros Hin; [contradiction|].
  cbn [send_all] in Hin. apply in_bind in Hin.
  destruct Hin as [Hin|(a & _ & Hin)].
  - exists c. split; [now left|].
    pose proof (send_files_events w
                  (fun e => e = Run cmd ->
                            cmd = copy_train_of w inventory_path remote_dest_path c \/
                            cmd = copy_test_of w inventory_path remote_dest_path c)
                  ltac:(intros m H; discriminate H)
                  inventory_path remote_dest_path c
                  ltac:(intros m H; discriminate H)
                  ltac:(intros H; injection H as <-; now left)
                  ltac:(intros H; injection H as <-; now right)) as HP.
    rewrite Forall_forall in HP. exact (HP _ Hin eq_refl).
  - destruct (IH Hin) as (c' & Hc' & H). exists c'. split; [now right | exact H].
Qed.

(** X15.  On every path, a copy command that is run is the train copy or
    the test copy of a client that the inventory listing names: to that
    one client, from the scratch directory, of the shard file that bears
    the client's name or of the test file. *)
Theorem copy_jobs_only_for_listed_clients exp_quota shuffle (w : world)
        (len_train_data len_train_labels len_test_data len_test_labels : nat)
        (inventory_path split_method remote_dest_path : string) (cmd : command) :
  copy_job (Run cmd) = true ->
  In (Run cmd)
     (fst (split_and_distribute exp_quota shuffle w
             len_train_data len_train_labels len_test_data len_test_labels
             inventory_path split_method remote_dest_path)) ->
  exists client_names c,
    inventory_stdout w = parsed (Some (Some client_names)) /\
    In c client_names /\
    (cmd = cmd_copy_train inventory_path c (shard_path w c)
                          (path_join remote_dest_path (train_file_name c)) \/
     cmd = cmd_copy_test inventory_path c (path_join (temp_dir w) "test_data.pt")
                         (path_join remote_dest_path "test_data.pt")).
Proof.
  intros Hjob Hin.
  pose proof (copy_job_transfer_event _ Hjob) as Htr.
  unfold split_and_distribute in Hin.
  apply in_bind in Hin. destruct Hin as [Hin|(? & _ & Hin)].
  { simpl in Hin. destruct Hin as [Hin|[]]. discriminate Hin. }
  apply in_bind in Hin. destruct Hin as [Hin|(? & _ & Hin)].
  { simpl in Hin. destruct Hin as [Hin|[]]. discriminate Hin. }
  destruct (negb (len_train_data =? len_train_labels)%nat).
  { simpl in Hin. destruct Hin as [Hin|[]]. discriminate Hin. }
  destruct (negb (len_test_data =? len_test_labels)%nat).
  { simpl in Hin. destruct Hin as [Hin|[]]. discriminate Hin. }
  destruct (negb (inventory_exists w inventory_path)).
  { simpl in Hin. destruct Hin as [Hin|[]]. discriminate Hin. }
  apply in_bind in Hin. destruct Hin as [Hin|(clients & Hq & Hin)].
  { exfalso. exact (quiet_excludes _ _ (query_clients_quiet w inventory_path) Htr Hin). }
  destruct clients as [names|]; [|contradiction].
  apply query_clients_some in Hq. destruct Hq as (_ & Hout & _).
  exists names.
  apply in_bind in Hin. destruct Hin as [Hin|(f & _ & Hin)].
  2:{ destruct f; simpl in Hin; [destruct Hin as [Hin|[]]; discriminate Hin | contradiction]. }
  rewrite fst_with_temp_dir in Hin. apply in_app_or in Hin.
  destruct Hin as [Hin|[Hin|[]]]; [|discriminate Hin].
  apply in_bind in Hin. destruct Hin as [Hin|(? & _ & Hin)].
  { simpl in Hin. destruct Hin as [Hin|[]]. discriminate Hin. }
  apply in_bind in Hin. destruct Hin as [Hin|(groups & _ & Hin)].
  { exfalso. exact (quiet_excludes _ _ (split_call_quiet _ _ _ _ _) Htr Hin). }
  apply in_bind in Hin. destruct Hin as [Hin|(? & _ & Hin)].
  { exfalso. exact (quiet_excludes _ _ (save_train_shards_quiet _ _ _ _) Htr Hin). }
  apply in_bind in Hin. destruct Hin as [Hin|(? & _ & Hin)].
  { simpl in Hin. destruct Hin as [Hin|[]]. discriminate Hin. }
  apply in_bind in Hin. destruct Hin as [Hin|(? & _ & Hin)].
  { exfalso. exact (quiet_excludes _ _ (save_quiet _ _ _) Htr Hin). }
  apply in_bind in Hin. destruct Hin as [Hin|(? & _ & Hin)].
  { simpl in Hin. destruct Hin as [Hin|[]]. discriminate Hin. }
  apply in_bind in Hin. destruct Hin as [Hin|(r & _ & Hin)].
  { exfalso. exact (quiet_excludes _ _ (reset_remote_quiet _ _ _) Htr Hin). }
  destruct r; [|contradiction].
  apply in_bind in Hin. destruct Hin as [Hin|(? & _ & Hin)].
  { simpl in Hin. destruct Hin as [Hin|[]]. discriminate Hin. }
  apply in_bind in Hin. destruct Hin as [Hin|(? & _ & Hin)].
  - destruct (send_all_copy_jobs w _ _ _ _ Hjob Hin) as (c & Hc & H).
    exists c. split; [exact Hout|]. split; [exact Hc|]. exact H.
  - apply in_bind in Hin. destruct Hin as [Hin|(? & _ & Hin)].
    + simpl in Hin. destruct Hin as [Hin|[]]. discriminate Hin.
    + contradiction.
Qed.

Lemma copy_jobs_only_for_listed_clients_witness :
  copy_job (Run (cmd_copy_test "inventory.ini" "site-2" "/tmp/t/test_data.pt"
                               "/data/test_data.pt")) = true /\
  In (Run (cmd_copy_test "inventory.ini" "site-2" "/tmp/t/test_data.pt"
                         "/data/test_data.pt"))
     (fst (example_run flaky_world)) /\
  exists client_names c,
    inventory_stdout flaky_world = parsed (Some (Some client_names)) /\
    In c client_names /\
    (cmd_copy_test "inventory.ini" "site-2" "/tmp/t/test_data.pt" "/data/test_data.pt"
     = cmd_copy_train "inventory.ini" c (shard_path flaky_world c)
                      (path_join "/data" (train_file_name c)) \/
     cmd_copy_test "inventory.ini" "site-2" "/tmp/t/test_data.pt" "/data/test_data.pt"
     = cmd_copy_test "inventory.ini" c (path_join (temp_dir flaky_world) "test_data.pt")
                     (path_join "/data" "test_data.pt")).
Proof.
  assert (H1 : copy_job (Run (cmd_copy_test "inventory.ini" "site-2" "/tmp/t/test_data.pt"
                                            "/data/test_data.pt")) = true) by reflexivity.
  assert (H2 : In (Run (cmd_copy_test "inventory.ini" "site-2" "/tmp/t/test_data.pt"
                                      "/data/test_data.pt"))
                  (fst (example_run flaky_world))).
  { vm_compute. repeat (first [left; reflexivity | right]). }
  split; [exact H1|]. split; [exact H2|].
  exact (copy_jobs_only_for_listed_clients no_exp_quota (fun l => l) flaky_world 4 4 3 3
           "inventory.ini" "uniform" "/data" _ H1 H2).
Defined.

(** ** The order of the two copies of a client *)

(** The test copy of a client is run in the turn of that client, after its
    train copy returned. *)
Lemma send_files_test_after_train (w : world) inventory_path remote_dest_path c c' :
  In (Run (copy_test_of w inventory_path remote_dest_path c))
     (fst (send_files w inventory_path remote_dest_path c')) ->
  respond w (copy_train_of w inventory_path remote_dest_path c) = Completed /\
  In (Run (copy_train_of w inventory_path remote_dest_path c))
     (fst (send_files w inventory_path remote_dest_path c')).
Proof.
  unfold send_files, run.
  destruct (respond w (copy_train_of w inventory_path remote_dest_path c')) as [|[]] eqn:Et;
    destruct (respond w (copy_test_of w inventory_path remote_dest_path c')) as [|[]];
    simpl; intros H;
    repeat (destruct H as [H|H];
            [first [discriminate H
                   | unfold copy_train_of, copy_test_of in H; discriminate H
                   | idtac]|]);
    try contradiction;
    unfold copy_test_of in H; injection H as ->;
    (split; [exact Et | right; left; reflexivity]).
Qed.

Lemma send_all_test_after_train (w : world) inventory_path remote_dest_path client_names c :
  In (Run (copy_test_of w inventory_path remote_dest_path c))
     (fst (send_all w inventory_path remote_dest_path client_names)) ->
  respond w (copy_train_of w inventory_path remote_dest_path c) = Completed /\
  In (Run (copy_train_of w inventory_path remote_dest_path c))
     (fst (send_all w inventory_path remote_dest_path client_names)).
Proof.
  induction client_names as [|c' l IH]; intros Hin; [contradiction|].
  cbn [send_all] in *. apply in_bind in Hin.
  destruct Hin as [Hin|(x & Hx & Hin)].
  - destruct (send_files_test_after_train w _ _ _ _ Hin) as [H1 H2].
    split; [exact H1|]. apply in_bind. now left.
  - destruct (IH Hin) as [H1 H2].
    split; [exact H1|]. apply in_bind. right. now exists x.
Qed.

(** A line that is not of the per-client loop. *)
Ltac not_transfer Hin Htr :=
  exfalso; simpl in Hin; destruct Hin as [Hin|[]];
  rewrite <- Hin in Htr; discriminate Htr.

(** On every path, an event of the per-client loop is an event of the loop
    over the clients that the inventory listing names. *)
Lemma transfer_events_of_loop exp_quota shuffle (w : world)
      (len_train_data len_train_labels len_test_data len_test_labels : nat)
      (inventory_path split_method remote_dest_path : string) (e : event) :
  transfer_event e = true ->
  In e (fst (split_and_distribute exp_quota shuffle w
               len_train_data len_train_labels len_test_data len_test_labels
               inventory_path split_method remote_dest_path)) ->
  exists client_names,
    inventory_stdout w = parsed (Some (Some client_names)) /\
    In e (fst (send_all w inventory_path remote_dest_path client_names)).
Proof.
  intros Htr Hin.
  unfold split_and_distribute in Hin.
  apply in_bind in Hin. destruct Hin as [Hin|(? & _ & Hin)].
  { not_transfer Hin Htr. }
  apply in_bind in Hin. destruct Hin as [Hin|(? & _ & Hin)].
  { not_transfer Hin Htr. }
  destruct (negb (len_train_data =? len_train_labels)%nat).
  { not_transfer Hin Htr. }
  destruct (negb (len_test_data =? len_test_labels)%nat).
  { not_transfer Hin Htr. }
  destruct (negb (inventory_exists w inventory_path)).
  { not_transfer Hin Htr. }
  apply in_bind in Hin. destruct Hin as [Hin|(clients & Hq & Hin)].
  { exfalso. exact (quiet_excludes _ _ (query_clients_quiet w inventory_path) Htr Hin). }
  destruct clients as [names|]; [|contradiction].
  apply query_clients_some in Hq. destruct Hq as (_ & Hout & _).
  exists names. split; [exact Hout|].
  apply in_bind in Hin. destruct Hin as [Hin|(f & _ & Hin)].
  2:{ destruct f; [not_transfer Hin Htr | contradiction]. }
  rewrite fst_with_temp_dir in Hin. apply in_app_or in Hin.
  destruct Hin as [Hin|[Hin|[]]];
    [|exfalso; rewrite <- Hin in Htr; discriminate Htr].
  apply in_bind in Hin. destruct Hin as [Hin|(? & _ & Hin)].
  { not_transfer Hin Htr. }
  apply in_bind in Hin. destruct Hin as [Hin|(groups & _ & Hin)].
  { exfalso. exact (quiet_excludes _ _ (split_call_quiet _ _ _ _ _) Htr Hin). }
  apply in_bind in Hin. destruct Hin as [Hin|(? & _ & Hin)].
  { exfalso. exact (quiet_excludes _ _ (save_train_shards_quiet _ _ _ _) Htr Hin). }
  apply in_bind in Hin. destruct Hin as [Hin|(? & _ & Hin)].
  { not_transfer Hin Htr. }
  apply in_bind in Hin. destruct Hin as [Hin|(? & _ & Hin)].
  { exfalso. exact (quiet_excludes _ _ (save_quiet _ _ _) Htr Hin). }
  apply in_bind in Hin. destruct Hin as [Hin|(? & _ & Hin)].
  { not_transfer Hin Htr. }
  apply in_bind in Hin. destruct Hin as [Hin|(r & _ & Hin)].
  { exfalso. exact (quiet_excludes _ _ (reset_remote_quiet _ _ _) Htr Hin). }
  destruct r; [|contradiction].
  apply in_bind in Hin. destruct Hin as [Hin|(? & _ & Hin)].
  { not_transfer Hin Htr. }
  apply in_bind in Hin. destruct Hin as [Hin|(? & _ & Hin)]; [exact Hin|].
  exfalso. apply in_bind in Hin. destruct Hin as [Hin|(? & _ & Hin)].
  - not_transfer Hin Htr.
  - contradiction.
Qed.

(** The events of the loop are events of the run, once the loop is reached. *)
Lemma loop_events_in_run {A : Type} (pre X tail : list event) (r : result A) p e :
  p = (pre ++ X ++ tail, r) -> In e X -> In e (fst p).
Proof.
  intros -> H. cbn [fst]. apply in_or_app. right. apply in_or_app. now left.
Qed.

(** C4, as claimed, fails.  The train copy to [site-1] exits non-zero, and
    the test copy to [site-1] is not run.  And when a copy does not exit
    but times out -- the test copy to [site-2] -- the loop ends: no copy is
    attempted for [site-3]. *)
Lemma failed_train_copy_skips_test_copy :
  (In "site-1"%string ["site-1"; "site-2"]%string /\
   respond flaky_world (copy_train_of flaky_world "inventory.ini" "/data" "site-1")
   = Raises (CalledProcessError "UNREACHABLE") /\
   ~ In (Run (copy_test_of flaky_world "inventory.ini" "/data" "site-1"))
        (fst (example_run flaky_world)))
  /\
  (inventory_stdout slow_world = parsed (Some (Some ["site-1"; "site-2"; "site-3"]%string)) /\
   respond slow_world (copy_test_of slow_world "inventory.ini" "/data" "site-2")
   = Raises TimeoutExpired /\
   ~ In (Run (copy_train_of slow_world "inventory.ini" "/data" "site-3"))
        (fst (example_run slow_world))).
Proof.
  split.
  - split; [left; reflexivity|]. split; [reflexivity|].
    vm_compute. intros H.
    repeat (destruct H as [H|H]; [discriminate H|]). exact H.
  - split; [reflexivity|]. split; [reflexivity|].
    vm_compute. intros H.
    repeat (destruct H as [H|H]; [discriminate H|]). exact H.
Qed.

(** C4, amended.  Isolation is per client, not per copy.  On every path,
    the test copy of a client is run only after the train copy of that
    client was run and returned: a train copy that fails skips the test
    copy of that client.  When the per-client loop is reached and the copy
    jobs either return or exit non-zero, the train copy is run for every
    client of the list, and the test copy for every client whose train
    copy returned. *)
Theorem copy_isolation_is_per_client exp_quota shuffle (w : world)
        (len_train_data len_train_labels len_test_data len_test_labels : nat)
        (inventory_path split_method remote_dest_path : string)
        (client_names : list string) :
  let t := fst (split_and_distribute exp_quota shuffle w
                  len_train_data len_train_labels len_test_data len_test_labels
                  inventory_path split_method remote_dest_path) in
  (forall c, In (Run (copy_test_of w inventory_path remote_dest_path c)) t ->
             In (Run (copy_train_of w inventory_path remote_dest_path c)) t /\
             respond w (copy_train_of w inventory_path remote_dest_path c) = Completed)
  /\
  (reaches_transfer exp_quota w
                    len_train_data len_train_labels len_test_data len_test_labels
                    inventory_path split_method remote_dest_path client_names ->
   forall c, In c client_names ->
     In (Run (copy_train_of w inventory_path remote_dest_path c)) t /\
     (respond w (copy_train_of w inventory_path remote_dest_path c) = Completed ->
      In (Run (copy_test_of w inventory_path remote_dest_path c)) t)).
Proof.
  intros t. subst t. split.
  - intros c Hin.
    assert (Htr : transfer_event (Run (copy_test_of w inventory_path remote_dest_path c))
                  = true) by reflexivity.
    destruct (transfer_events_of_loop exp_quota shuffle w _ _ _ _ _ _ _ _ Htr Hin)
      as (names & _ & Hloop).
    destruct (send_all_test_after_train w _ _ _ _ Hloop) as [Hok Htrain].
    split; [|exact Hok].
    clear Hloop Hok.
    unfold split_and_distribute in *.
    apply in_bind in Hin. destruct Hin as [Hin|(? & _ & Hin)];
      [simpl in Hin; destruct Hin as [Hin|[]]; discriminate Hin|].
    apply in_bind in Hin. destruct Hin as [Hin|(? & _ & Hin)];
      [simpl in Hin; destruct Hin as [Hin|[]]; discriminate Hin|].
    apply in_bind. right. exists tt. split; [reflexivity|].
    apply in_bind. right. exists tt. split; [reflexivity|].
    destruct (negb (len_train_data =? len_train_labels)%nat);
      [simpl in Hin; destruct Hin as [Hin|[]]; discriminate Hin|].
    destruct (negb (len_test_data =? len_test_labels)%nat);
      [simpl in Hin; destruct Hin as [Hin|[]]; discriminate Hin|].
    destruct (negb (inventory_exists w inventory_path));
      [simpl in Hin; destruct Hin as [Hin|[]]; discriminate Hin|].
    apply in_bind in Hin. destruct Hin as [Hin|(clients & Hq & Hin)].
    { exfalso. exact (quiet_excludes _ _ (query_clients_quiet w inventory_path)
                        Htr Hin). }
    apply in_bind. right. exists clients. split; [exact Hq|].
    destruct clients as [names'|]; [|contradiction].
    pose proof Hq as Hq'. apply query_clients_some in Hq'.
    destruct Hq' as (_ & Hout & _).
    apply in_bind in Hin. destruct Hin as [Hin|(f & _ & Hin)].
    2:{ exfalso. destruct f; simpl in Hin; [destruct Hin as [Hin|[]]; discriminate Hin
                                          | contradiction]. }
    apply in_bind. left.
    rewrite fst_with_temp_dir in *. apply in_app_or in Hin.
    destruct Hin as [Hin|[Hin|[]]]; [|discriminate Hin].
    apply in_or_app. left.
    apply in_bind in Hin. destruct Hin as [Hin|(x1 & Hx1 & Hin)].
    { simpl in Hin. destruct Hin as [Hin|[]]. discriminate Hin. }
    apply in_bind. right. exists x1. split; [exact Hx1|].
    apply in_bind in Hin. destruct Hin as [Hin|(groups & Hg & Hin)].
    { exfalso. exact (quiet_excludes _ _ (split_call_quiet _ _ _ _ _) Htr Hin). }
    apply in_bind. right. exists groups. split; [exact Hg|].
    apply in_bind in Hin. destruct Hin as [Hin|(x2 & Hx2 & Hin)].
    { exfalso. exact (quiet_excludes _ _ (save_train_shards_quiet _ _ _ _) Htr Hin). }
    apply in_bind. right. exists x2. split; [exact Hx2|].
    apply in_bind in Hin. destruct Hin as [Hin|(x3 & Hx3 & Hin)].
    { simpl in Hin. destruct Hin as [Hin|[]]. discriminate Hin. }
    apply in_bind. right. exists x3. split; [exact Hx3|].
    apply in_bind in Hin. destruct Hin as [Hin|(x4 & Hx4 & Hin)].
    { exfalso. exact (quiet_excludes _ _ (save_quiet _ _ _) Htr Hin). }
    apply in_bind. right. exists x4. split; [exact Hx4|].
    apply in_bind in Hin. destruct Hin as [Hin|(x5 & Hx5 & Hin)].
    { simpl in Hin. destruct Hin as [Hin|[]]. discriminate Hin. }
    apply in_bind. right. exists x5. split; [exact Hx5|].
    apply in_bind in Hin. destruct Hin as [Hin|(r & Hr & Hin)].
    { exfalso. exact (quiet_excludes _ _ (reset_remote_quiet _ _ _) Htr Hin). }
    apply in_bind. right. exists r. split; [exact Hr|].
    destruct r; [|contradiction].
    apply in_bind in Hin. destruct Hin as [Hin|(x6 & Hx6 & Hin)].
    { simpl in Hin. destruct Hin as [Hin|[]]. discriminate Hin. }
    apply in_bind. right. exists x6. split; [exact Hx6|].
    apply in_bind in Hin. destruct Hin as [Hin|(x7 & _ & Hin)].
    + apply in_bind. left.
      exact (proj2 (send_all_test_after_train w _ _ _ _ Hin)).
    + exfalso. apply in_bind in Hin. destruct Hin as [Hin|(? & _ & Hin)].
      * simpl in Hin. destruct Hin as [Hin|[]]. discriminate Hin.
      * contradiction.
  - intros Hreach c Hc.
    destruct (transfer_trace exp_quota shuffle w _ _ _ _ _ _ _ _ Hreach)
      as (pre & Hpre & Hrun).
    pose proof (rt_copies _ _ _ _ _ _ _ _ _ _ Hreach) as Hcopies.
    rewrite Forall_forall in Hcopies.
    split.
    + apply (loop_events_in_run _ _ _ _ _ _ Hrun).
      apply in_flat_map. exists c. split; [exact Hc|].
      apply client_events_spec; [now apply Hcopies | tauto].
    + intros Hok. apply (loop_events_in_run _ _ _ _ _ _ Hrun).
      apply in_flat_map. exists c. split; [exact Hc|].
      apply client_events_spec; [now apply Hcopies | tauto].
Qed.

Lemma copy_isolation_is_per_client_witness :
  reaches_transfer no_exp_quota flaky_world 4 4 3 3 "inventory.ini" "uniform" "/data"
                   ["site-1"; "site-2"]%string /\
  let t := fst (example_run flaky_world) in
  (forall c, In (Run (copy_test_of flaky_world "inventory.ini" "/data" c)) t ->
             In (Run (copy_train_of flaky_world "inventory.ini" "/data" c)) t /\
             respond flaky_world (copy_train_of flaky_world "inventory.ini" "/data" c)
             = Completed)
  /\
  (forall c, In c ["site-1"; "site-2"]%string ->
     In (Run (copy_train_of flaky_world "inventory.ini" "/data" c)) t /\
     (respond flaky_world (copy_train_of flaky_world "inventory.ini" "/data" c) = Completed ->
      In (Run (copy_test_of flaky_world "inventory.ini" "/data" c)) t)).
Proof.
  split; [exact flaky_reaches_transfer|].
  destruct (copy_isolation_is_per_client no_exp_quota (fun l => l) flaky_world 4 4 3 3
              "inventory.ini" "uniform" "/data" ["site-1"; "site-2"]%string)
    as [Hall Hloop].
  split; [exact Hall | exact (Hloop flaky_reaches_transfer)].
Defined.

(** ** The per-client loop when a copy job raises something else *)

Section LoopTrace.

Variable exp_quota : nat -> nat -> nat -> result Z.
Variable shuffle : list nat -> list nat.
Variable w : world.
Variables len_train_data len_train_labels len_test_data len_test_labels : nat.
Variables inventory_path split_method remote_dest_path : string.

(** When the per-client loop is reached, the run is: events before the
    loop, the events of the loop, and then, when the loop returned, the
    closing lines around the removal of the scratch directory, and when
    an exception left the loop, the removal alone, the exception going on. *)
Lemma loop_trace client_names :
  reaches_loop exp_quota w
               len_train_data len_train_labels len_test_data len_test_labels
               inventory_path split_method remote_dest_path client_names ->
  ends_with
    (fst (send_all w inventory_path remote_dest_path client_names) ++
     match snd (send_all w inventory_path remote_dest_path client_names) with
     | Ret _ => [Print msg_all_distributed; Cleanup (temp_dir w); Print msg_process_complete]
     | Raise _ => [Cleanup (temp_dir w)]
     end)
    (match snd (send_all w inventory_path remote_dest_path client_names) with
     | Ret _ => Ret tt
     | Raise e => Raise e
     end)
    (split_and_distribute exp_quota shuffle w
       len_train_data len_train_labels len_test_data len_test_labels
       inventory_path split_method remote_dest_path).
Proof.
  intros [Ha Hb Hinv Hq Hout Hne Hrec Hsave Hdel Hcre].
  rewrite Ha in Hrec.
  unfold split_and_distribute.
  apply ends_with_bind with (a := tt); [reflexivity | repeat constructor |].
  apply ends_with_bind with (a := tt); [reflexivity | repeat constructor |].
  rewrite Ha, Hb, !Nat.eqb_refl, Hinv. cbn [negb].
  apply ends_with_bind with (a := Some client_names);
    [now apply query_clients_found | apply query_clients_quiet |].
  assert (HM : (1 <= List.length client_names)%nat).
  { destruct client_names; [congruence | simpl; lia]. }
  destruct (split_call_returns exp_quota shuffle len_train_labels
              (List.length client_names) split_method HM Hrec)
    as (sizes & groups & Hcall & Hlen).
  set (S := send_all w inventory_path remote_dest_path client_names).
  assert (Hbody :
    ends_with
      (fst S ++ match snd S with Ret _ => [Print msg_all_distributed] | Raise _ => [] end)
      (match snd S with Ret _ => Ret Next | Raise e => Raise e end)
      (emit (Print (msg_creating_splits (temp_dir w))) ;;
       train_indices <-
         split_dataset_indices_call exp_quota shuffle len_train_labels
           (List.length client_names) split_method ;;
       save_train_shards w train_indices 0 client_names ;;
       emit (Print msg_saving_test) ;;
       _save_tensors_to_pt w (test_full len_test_labels)
         (path_join (temp_dir w) "test_data.pt") ;;
       emit (Print msg_starting_distribution) ;;
       r <- reset_remote w inventory_path remote_dest_path ;;
       match r with
       | Returned => ret Returned
       | Next =>
           emit (Print msg_distributing) ;;
           S ;;
           emit (Print msg_all_distributed) ;;
           ret Next
       end)).
  { apply ends_with_bind with (a := tt); [reflexivity | repeat constructor |].
    apply ends_with_bind with (a := groups);
      [now rewrite Hcall | apply split_call_quiet |].
    apply ends_with_bind with (a := tt);
      [apply save_train_shards_completes; [exact Hsave | simpl; lia]
      | apply save_train_shards_quiet |].
    apply ends_with_bind with (a := tt); [reflexivity | repeat constructor |].
    apply ends_with_bind with (a := tt);
      [apply save_completes, Hsave | apply save_quiet |].
    apply ends_with_bind with (a := tt); [reflexivity | repeat constructor |].
    apply ends_with_bind with (a := Next);
      [now apply reset_remote_completes | apply reset_remote_quiet |].
    apply ends_with_bind with (a := tt); [reflexivity | repeat constructor |].
    exists []. split; [constructor|].
    destruct S as [ts [[]|e]]; simpl; [reflexivity|].
    now rewrite app_nil_r. }
  destruct Hbody as (pre & Hpre & Hbody).
  exists pre. split; [exact Hpre|].
  rewrite Hbody. unfold with_temp_dir.
  destruct (snd S) as [[]|e]; simpl; rewrite <- ?app_assoc; reflexivity.
Qed.

End LoopTrace.

Section LoopAbort.

Variable w : world.
Variables inventory_path remote_dest_path : string.

Lemma send_all_app_exits done rest :
  Forall (copies_exit w inventory_path remote_dest_path) done ->
  send_all w inventory_path remote_dest_path (done ++ rest)
  = (flat_map (client_events w inventory_path remote_dest_path) done ++
     fst (send_all w inventory_path remote_dest_path rest),
     snd (send_all w inventory_path remote_dest_path rest)).
Proof.
  induction 1 as [|c l Hc _ IH].
  { cbn [app flat_map].
    destruct (send_all w inventory_path remote_dest_path rest); reflexivity. }
  cbn [app send_all flat_map].
  rewrite send_files_exits by exact Hc. rewrite IH.
  cbn [bind]. now rewrite app_assoc.
Qed.

(** A copy job of [c] raising something that is not a non-zero exit ends
    the turn of [c] with that exception. *)
Lemma send_files_raises c e :
  respond w (copy_train_of w inventory_path remote_dest_path c) = Raises e \/
  (respond w (copy_train_of w inventory_path remote_dest_path c) = Completed /\
   respond w (copy_test_of w inventory_path remote_dest_path c) = Raises e) ->
  not_a_process_error e ->
  snd (send_files w inventory_path remote_dest_path c) = Raise e /\
  forall ev, In ev (fst (send_files w inventory_path remote_dest_path c)) ->
             ev = Print (msg_sending c) \/
             ev = Run (copy_train_of w inventory_path remote_dest_path c) \/
             ev = Run (copy_test_of w inventory_path remote_dest_path c).
Proof.
  intros H He. unfold send_files, run.
  destruct H as [H|[H1 H2]].
  - rewrite H. destruct e; simpl in He; try contradiction;
      (split; [reflexivity|]); simpl; intros ev [<-|[<-|[]]]; tauto.
  - rewrite H1, H2. destruct e; simpl in He; try contradiction;
      (split; [reflexivity|]); simpl; intros ev [<-|[<-|[<-|[]]]]; tauto.
Qed.

End LoopAbort.

Lemma slow_reaches_loop :
  reaches_loop no_exp_quota slow_world 4 4 3 3 "inventory.ini" "uniform" "/data"
               (["site-1"%string] ++ "site-2"%string :: ["site-3"%string]).
Proof.
  constructor; try reflexivity.
  - discriminate.
  - eexists. reflexivity.
Qed.

(** X16.  When the per-client loop is reached (the split returned, the
    shards were written, the reset completed), a copy job that raises
    anything but a non-zero exit -- the timeout of sixty seconds, a missing
    executable -- is not handled by the loop: the exception leaves the
    function; the scratch directory is still removed; and the clients that
    come later in the list get no copy job. *)
Theorem copy_timeout_aborts_the_loop exp_quota shuffle (w : world)
        (len_train_data len_train_labels len_test_data len_test_labels : nat)
        (inventory_path split_method remote_dest_path : string)
        (done later : list string) (c : string) (e : exn) :
  reaches_loop exp_quota w
               len_train_data len_train_labels len_test_data len_test_labels
               inventory_path split_method remote_dest_path (done ++ c :: later) ->
  Forall (copies_exit w inventory_path remote_dest_path) done ->
  respond w (copy_train_of w inventory_path remote_dest_path c) = Raises e \/
  (respond w (copy_train_of w inventory_path remote_dest_path c) = Completed /\
   respond w (copy_test_of w inventory_path remote_dest_path c) = Raises e) ->
  not_a_process_error e ->
  exists t,
    split_and_distribute exp_quota shuffle w
      len_train_data len_train_labels len_test_data len_test_labels
      inventory_path split_method remote_dest_path = (t, Raise e) /\
    In (Cleanup (temp_dir w)) t /\
    forall c', In c' later -> ~ In c' done -> c' <> c ->
      ~ In (Run (copy_train_of w inventory_path remote_dest_path c')) t /\
      ~ In (Run (copy_test_of w inventory_path remote_dest_path c')) t.
Proof.
  intros Hreach Hdone Hc He.
  destruct (loop_trace exp_quota shuffle w _ _ _ _ _ _ _ _ Hreach) as (pre & Hpre & Hrun).
  destruct (send_files_raises w inventory_path remote_dest_path c e Hc He) as [Hr Hev].
  rewrite (send_all_app_exits w inventory_path remote_dest_path done (c :: later) Hdone)
    in Hrun.
  cbn [send_all] in Hrun.
  rewrite (bind_Raise _ _ e Hr) in Hrun. cbn [fst snd] in Hrun.
  eexists. split; [exact Hrun|]. split.
  { apply in_or_app. right. apply in_or_app. right. now left. }
  assert (Hnot : forall c' ev,
             ~ In c' done -> c' <> c ->
             ev = Run (copy_train_of w inventory_path remote_dest_path c') \/
             ev = Run (copy_test_of w inventory_path remote_dest_path c') ->
             ~ In ev (pre ++
                      (flat_map (client_events w inventory_path remote_dest_path) done ++
                       fst (send_files w inventory_path remote_dest_path c)) ++
                      [Cleanup (temp_dir w)])).
  { intros c' ev Hnd Hne Hshape Hin.
    assert (Htr : transfer_event ev = true) by (destruct Hshape; subst ev; reflexivity).
    apply in_transfer_trace in Hin; [| exact Hpre | exact Htr | repeat constructor].
    apply in_app_or in Hin. destruct Hin as [Hin|Hin].
    - apply in_flat_map in Hin. destruct Hin as (c'' & Hc'' & Hin).
      rewrite Forall_forall in Hdone.
      apply client_events_spec in Hin; [|now apply Hdone].
      destruct Hin as [Hin|[Hin|[[Hin _]|(s & Hin & _)]]];
        destruct Hshape; subst ev; try discriminate Hin;
        injection Hin as ->; contradiction.
    - apply Hev in Hin.
      destruct Hin as [Hin|[Hin|Hin]];
        destruct Hshape; subst ev; try discriminate Hin;
        injection Hin as ->; contradiction. }
  intros c' _ Hnd Hne. split; eapply Hnot; eauto.
Qed.

Lemma copy_timeout_aborts_the_loop_witness :
  reaches_loop no_exp_quota slow_world 4 4 3 3 "inventory.ini" "uniform" "/data"
               (["site-1"%string] ++ "site-2"%string :: ["site-3"%string]) /\
  Forall (copies_exit slow_world "inventory.ini" "/data") ["site-1"%string] /\
  (respond slow_world (copy_train_of slow_world "inventory.ini" "/data" "site-2")
   = Raises TimeoutExpired \/
   (respond slow_world (copy_train_of slow_world "inventory.ini" "/data" "site-2")
    = Completed /\
    respond slow_world (copy_test_of slow_world "inventory.ini" "/data" "site-2")
    = Raises TimeoutExpired)) /\
  not_a_process_error TimeoutExpired /\
  exists t,
    example_run slow_world = (t, Raise TimeoutExpired) /\
    In (Cleanup (temp_dir slow_world)) t /\
    forall c', In c' ["site-3"%string] -> ~ In c' ["site-1"%string] -> c' <> "site-2"%string ->
      ~ In (Run (copy_train_of slow_world "inventory.ini" "/data" c')) t /\
      ~ In (Run (copy_test_of slow_world "inventory.ini" "/data" c')) t.
Proof.
  assert (H1 : Forall (copies_exit slow_world "inventory.ini" "/data") ["site-1"%string])
    by (repeat constructor).
  assert (H2 : respond slow_world (copy_train_of slow_world "inventory.ini" "/data" "site-2")
               = Raises TimeoutExpired \/
               (respond slow_world (copy_train_of slow_world "inventory.ini" "/data" "site-2")
                = Completed /\
                respond slow_world (copy_test_of slow_world "inventory.ini" "/data" "site-2")
                = Raises TimeoutExpired))
    by (right; split; reflexivity).
  assert (H3 : not_a_process_error TimeoutExpired) by exact I.
  split; [exact slow_reaches_loop|]. split; [exact H1|]. split; [exact H2|].
  split; [exact H3|].
  exact (copy_timeout_aborts_the_loop no_exp_quota (fun l => l) slow_world 4 4 3 3
           "inventory.ini" "uniform" "/data" ["site-1"%string] ["site-3"%string]
           "site-2"%string TimeoutExpired slow_reaches_loop H1 H2 H3).
Defined.

(** ** The shard files *)

Lemma split_dataset_indices_inv exp_quota shuffle (N M : nat) (method : string) groups :
  split_dataset_indices exp_quota shuffle N M method = Ret groups ->
  exists sizes, allocate exp_quota N M method = Ret sizes /\
                groups = slice_groups (shuffle (seq 0 N)) 0 sizes.
Proof.
  unfold split_dataset_indices.
  destruct (allocate exp_quota N M method) as [sizes|e]; [|discriminate].
  intros H. injection H as <-. now exists sizes.
Qed.

Lemma train_saves_app t1 t2 : train_saves (t1 ++ t2) = train_saves t1 ++ train_saves t2.
Proof. unfold train_saves. apply flat_map_app. Qed.

Lemma train_saves_bind {A B : Type} (p : prog A) (k : A -> prog B) :
  train_saves (fst (bind p k))
  = train_saves (fst p) ++
    match snd p with
    | Ret a => train_saves (fst (k a))
    | Raise _ => []
    end.
Proof.
  destruct p as [t [a|e]]; simpl.
  - destruct (k a) as [t' r]. simpl. apply train_saves_app.
  - now rewrite app_nil_r.
Qed.

Lemma train_saves_none t :
  Forall (fun e => forall f g, e <> Save f (train_rows g)) t -> train_saves t = [].
Proof.
  induction 1 as [|e t He _ IH]; [reflexivity|].
  cbn [train_saves flat_map]. fold (train_saves t). rewrite IH.
  destruct e as [m|m|c|f s|d]; try reflexivity.
  destruct s as [g|n]; [|reflexivity]. now destruct (He f g).
Qed.

Lemma skipn_nth_error {A : Type} (l : list A) : forall i x,
  nth_error l i = Some x -> skipn i l = x :: skipn (S i) l.
Proof.
  induction l as [|y l IH]; intros [|i] x H; try discriminate H.
  - injection H as <-. reflexivity.
  - simpl in H. apply IH in H. exact H.
Qed.

(** The shards are written in the order of the clients: the [i]-th client's
    file holds the [i]-th group. *)
Lemma save_train_shards_saves (w : world) groups client_names : forall i,
  (forall file_path, save_outcome w file_path = Completed) ->
  (i + List.length client_names <= List.length groups)%nat ->
  train_saves (fst (save_train_shards w groups i client_names))
  = combine (map (shard_path w) client_names) (skipn i groups).
Proof.
  induction client_names as [|c l IH]; intros i Hsave Hlen; [reflexivity|].
  cbn [List.length] in Hlen. cbn [save_train_shards].
  destruct (nth_error groups i) as [g|] eqn:E.
  - rewrite train_saves_bind.
    rewrite (save_completes w _ _ (Hsave _)).
    unfold _save_tensors_to_pt at 1. rewrite Hsave.
    rewrite IH by (try exact Hsave; lia).
    rewrite (skipn_nth_error groups i g E). reflexivity.
  - apply nth_error_None in E. lia.
Qed.

Section Shards.

Variable exp_quota : nat -> nat -> nat -> result Z.
Variable shuffle : list nat -> list nat.
Variable w : world.
Variables len_train_data len_test_data : nat.
Variables inventory_path split_method remote_dest_path : string.
Variable client_names : list string.
Variable groups : list (list nat).

Hypothesis inventory_found : inventory_exists w inventory_path = true.
Hypothesis query_answered : respond w (cmd_inventory inventory_path) = Completed.
Hypothesis listing : inventory_stdout w = parsed (Some (Some client_names)).
Hypothesis some_client : client_names <> [].
Hypothesis split_returned :
  split_dataset_indices exp_quota shuffle len_train_data
                        (List.length client_names) split_method = Ret groups.
Hypothesis writes_succeed : forall file_path, save_outcome w file_path = Completed.

(** Whatever the reset and the copies do afterwards. *)
Lemma train_saves_of_run :
  List.length groups = List.length client_names /\
  train_saves
    (fst (split_and_distribute exp_quota shuffle w
            len_train_data len_train_data len_test_data len_test_data
            inventory_path split_method remote_dest_path))
  = combine (map (shard_path w) client_names) groups.
Proof.
  assert (HM : (1 <= List.length client_names)%nat).
  { destruct client_names; [congruence | simpl; lia]. }
  destruct (split_dataset_indices_inv _ _ _ _ _ _ split_returned) as (sizes & Hsizes & Eg).
  assert (Hlen : List.length groups = List.length client_names).
  { rewrite Eg, slice_groups_length.
    now apply allocate_length with (1 := HM) (2 := Hsizes). }
  split; [exact Hlen|].
  assert (Hcall : split_dataset_indices_call exp_quota shuffle len_train_data
                    (List.length client_names) split_method
                  = ([Print (msg_splitting len_train_data (List.length client_names)
                                           split_method sizes)],
                     Ret groups)).
  { unfold split_dataset_indices_call. rewrite Hsizes, Eg. reflexivity. }
  assert (Hrest : forall r : flow,
             train_saves
               (fst match r with
                    | Next =>
                        emit (Print msg_distributing) ;;
                        send_all w inventory_path remote_dest_path client_names ;;
                        emit (Print msg_all_distributed) ;; ret Next
                    | Returned => ret Returned
                    end) = []).
  { intros r. apply train_saves_none. destruct r; [|constructor].
    apply Forall_bind; [repeat constructor; intros; discriminate|intros _ _].
    apply Forall_bind.
    - apply send_all_events; intros; try split; intros; discriminate.
    - intros _ _. repeat constructor; intros; discriminate. }
  unfold split_and_distribute.
  rewrite !Nat.eqb_refl, inventory_found. cbn [negb].
  rewrite train_saves_bind. cbn [emit fst snd train_saves flat_map app].
  rewrite train_saves_bind. cbn [emit fst snd train_saves flat_map app].
  rewrite train_saves_bind.
  rewrite (query_clients_found w inventory_path client_names
             query_answered listing some_client).
  rewrite (train_saves_none (fst (query_clients w inventory_path)))
    by (apply query_clients_events; intros; discriminate).
  cbn [app].
  rewrite train_saves_bind, fst_with_temp_dir, train_saves_app.
  destruct (snd (with_temp_dir w _)) as [[|]|];
    cbn [emit ret fst snd train_saves flat_map app]; rewrite !app_nil_r.
  all: rewrite train_saves_bind; cbn [emit fst snd train_saves flat_map app].
  all: rewrite train_saves_bind, Hcall; cbn [fst snd train_saves flat_map app].
  all: rewrite train_saves_bind.
  all: rewrite (save_train_shards_completes w groups client_names 0 writes_succeed)
    by (simpl; lia).
  all: rewrite (save_train_shards_saves w groups client_names 0 writes_succeed)
    by (simpl; lia).
  all: cbn [skipn].
  all: rewrite train_saves_bind; cbn [emit fst snd train_saves flat_map app].
  all: rewrite train_saves_bind.
  all: rewrite (save_completes w _ _ (writes_succeed _)).
  all: rewrite (train_saves_none (fst (_save_tensors_to_pt w _ _)))
    by (unfold _save_tensors_to_pt; rewrite writes_succeed;
        repeat constructor; intros; discriminate).
  all: cbn [app].
  all: rewrite train_saves_bind; cbn [emit fst snd train_saves flat_map app].
  all: rewrite train_saves_bind.
  all: rewrite (train_saves_none (fst (reset_remote w inventory_path remote_dest_path)))
    by (apply reset_remote_events; intros; discriminate).
  all: cbn [app].
  all: destruct (snd (reset_remote w inventory_path remote_dest_path)) as [r|x];
    rewrite ?Hrest, ?app_nil_r; reflexivity.
Qed.

End Shards.

Lemma split_returns_groups exp_quota shuffle (N M : nat) (method : string) sizes :
  allocate exp_quota N M method = Ret sizes ->
  split_dataset_indices exp_quota shuffle N M method
  = Ret (slice_groups (shuffle (seq 0 N)) 0 sizes).
Proof.
  intros H. unfold split_dataset_indices. now rewrite H.
Qed.

Lemma nth_error_combine {A B : Type} (l1 : list A) : forall (l2 : list B) i a b,
  nth_error (combine l1 l2) i = Some (a, b) <->
  nth_error l1 i = Some a /\ nth_error l2 i = Some b.
Proof.
  induction l1 as [|x l1 IH]; intros [|y l2] [|i] a b; simpl;
    try (split; [discriminate | intros [H1 H2]; discriminate]).
  - split; [intros H; injection H as <- <-; now split|].
    intros [H1 H2]. injection H1 as <-. injection H2 as <-. reflexivity.
  - apply IH.
Qed.

Lemma map_fst_combine {A B : Type} (l1 : list A) : forall (l2 : list B),
  List.length l1 = List.length l2 -> map fst (combine l1 l2) = l1.
Proof.
  induction l1 as [|x l1 IH]; intros [|y l2] H; try discriminate H; [reflexivity|].
  simpl. f_equal. apply IH. now injection H.
Qed.

Lemma flat_map_snd_combine {A B : Type} (l1 : list A) : forall (l2 : list (list B)),
  List.length l1 = List.length l2 ->
  flat_map snd (combine l1 l2) = List.concat l2.
Proof.
  induction l1 as [|a l1 IH]; intros [|b l2] H; try discriminate H; [reflexivity|].
  simpl. f_equal. apply IH. now injection H.
Qed.

(** X17.  When the lengths agree, the inventory names clients, the split
    returns its groups and the file writes succeed, then -- whatever the
    reset and the copies do afterwards -- the training shards written are,
    in the order of the inventory, one per client: the file named after the
    [i]-th client holds the rows of the [i]-th group of
    [split_dataset_indices], and these are the only training shards
    written. *)
Theorem shards_follow_the_inventory_order exp_quota shuffle (w : world)
        (len_train_data len_test_data : nat)
        (inventory_path split_method remote_dest_path : string)
        (client_names : list string) (groups : list (list nat)) :
  inventory_exists w inventory_path = true ->
  respond w (cmd_inventory inventory_path) = Completed ->
  inventory_stdout w = parsed (Some (Some client_names)) ->
  client_names <> [] ->
  split_dataset_indices exp_quota shuffle len_train_data
                        (List.length client_names) split_method = Ret groups ->
  (forall file_path, save_outcome w file_path = Completed) ->
  let t := fst (split_and_distribute exp_quota shuffle w
                  len_train_data len_train_data len_test_data len_test_data
                  inventory_path split_method remote_dest_path) in
  (forall i c, nth_error client_names i = Some c ->
               exists g, nth_error groups i = Some g /\
                         In (Save (shard_path w c) (train_rows g)) t) /\
  (forall f g, In (Save f (train_rows g)) t ->
               exists i c, nth_error client_names i = Some c /\
                           nth_error groups i = Some g /\
                           f = shard_path w c) /\
  map fst (train_saves t) = map (shard_path w) client_names.
Proof.
  intros H1 H2 H3 H4 H5 H6 t.
  destruct (train_saves_of_run exp_quota shuffle w len_train_data len_test_data
              inventory_path split_method remote_dest_path client_names groups
              H1 H2 H3 H4 H5 H6) as [Hlen Hs].
  fold t in Hs.
  assert (Hin : forall f g, In (Save f (train_rows g)) t <-> In (f, g) (train_saves t)).
  { intros f g. unfold train_saves. rewrite in_flat_map. split.
    - intros H. exists (Save f (train_rows g)). split; [exact H | now left].
    - intros (e & He & Hfg).
      destruct e as [m|m|c|f' s'|d]; try contradiction.
      destruct s' as [g'|n]; [|contradiction].
      destruct Hfg as [Hfg|[]]. injection Hfg as <- <-. exact He. }
  split; [|split].
  - intros i c Hc.
    destruct (nth_error groups i) as [g|] eqn:Eg.
    + exists g. split; [reflexivity|].
      apply Hin. rewrite Hs.
      apply (nth_error_In _ i).
      apply nth_error_combine. split; [|exact Eg].
      now rewrite nth_error_map, Hc.
    + apply nth_error_None in Eg.
      assert (i < List.length client_names)%nat
        by (apply nth_error_Some; congruence).
      lia.
  - intros f g Hfg. apply Hin in Hfg. rewrite Hs in Hfg.
    apply In_nth_error in Hfg. destruct Hfg as [i Hi].
    apply nth_error_combine in Hi. destruct Hi as [Hf Hg].
    rewrite nth_error_map in Hf.
    destruct (nth_error client_names i) as [c|] eqn:Ec; [|discriminate Hf].
    injection Hf as <-. now exists i, c.
  - rewrite Hs. apply map_fst_combine. now rewrite length_map.
Qed.

Lemma shards_follow_the_inventory_order_witness :
  inventory_exists flaky_world "inventory.ini" = true /\
  respond flaky_world (cmd_inventory "inventory.ini") = Completed /\
  inventory_stdout flaky_world = parsed (Some (Some ["site-1"; "site-2"]%string)) /\
  ["site-1"; "site-2"]%string <> [] /\
  split_dataset_indices no_exp_quota (fun l => l) 4
                        (List.length ["site-1"; "site-2"]%string) "uniform"
  = Ret [[0; 1]; [2; 3]]%nat /\
  (forall file_path, save_outcome flaky_world file_path = Completed) /\
  let t := fst (example_run flaky_world) in
  (forall i c, nth_error ["site-1"; "site-2"]%string i = Some c ->
               exists g, nth_error [[0; 1]; [2; 3]]%nat i = Some g /\
                         In (Save (shard_path flaky_world c) (train_rows g)) t) /\
  (forall f g, In (Save f (train_rows g)) t ->
               exists i c, nth_error ["site-1"; "site-2"]%string i = Some c /\
                           nth_error [[0; 1]; [2; 3]]%nat i = Some g /\
                           f = shard_path flaky_world c) /\
  map fst (train_saves t) = map (shard_path flaky_world) ["site-1"; "site-2"]%string.
Proof.
  assert (H1 : inventory_exists flaky_world "inventory.ini" = true) by reflexivity.
  assert (H2 : respond flaky_world (cmd_inventory "inventory.ini") = Completed)
    by reflexivity.
  assert (H3 : inventory_stdout flaky_world
               = parsed (Some (Some ["site-1"; "site-2"]%string))) by reflexivity.
  assert (H4 : ["site-1"; "site-2"]%string <> []) by discriminate.
  assert (H5 : split_dataset_indices no_exp_quota (fun l => l) 4
                 (List.length ["site-1"; "site-2"]%string) "uniform"
               = Ret [[0; 1]; [2; 3]]%nat) by reflexivity.
  assert (H6 : forall file_path, save_outcome flaky_world file_path = Completed)
    by (intros; reflexivity).
  repeat (split; [assumption|]).
  exact (shards_follow_the_inventory_order no_exp_quota (fun l => l) flaky_world 4 3
           "inventory.ini" "uniform" "/data" ["site-1"; "site-2"]%string _
           H1 H2 H3 H4 H5 H6).
Defined.

(** X18.  When moreover the shuffle is a permutation and at most one
    sample is missing for one sample per client, the rows of the training
    shards written, taken together, are the rows [0, N) of the training
    set, each once: every training sample goes to exactly one client. *)
Theorem every_sample_in_one_shard exp_quota shuffle (w : world)
        (len_train_data len_test_data : nat)
        (inventory_path split_method remote_dest_path : string)
        (client_names : list string) (groups : list (list nat)) :
  inventory_exists w inventory_path = true ->
  respond w (cmd_inventory inventory_path) = Completed ->
  inventory_stdout w = parsed (Some (Some client_names)) ->
  client_names <> [] ->
  split_dataset_indices exp_quota shuffle len_train_data
                        (List.length client_names) split_method = Ret groups ->
  (forall file_path, save_outcome w file_path = Completed) ->
  (forall l, Permutation (shuffle l) l) ->
  (List.length client_names <= len_train_data + 1)%nat ->
  Permutation
    (flat_map snd
       (train_saves
          (fst (split_and_distribute exp_quota shuffle w
                  len_train_data len_train_data len_test_data len_test_data
                  inventory_path split_method remote_dest_path))))
    (seq 0 len_train_data).
Proof.
  intros H1 H2 H3 H4 H5 H6 Hperm Hfit.
  destruct (train_saves_of_run exp_quota shuffle w len_train_data len_test_data
              inventory_path split_method remote_dest_path client_names groups
              H1 H2 H3 H4 H5 H6) as (Hlen & Hs).
  assert (HM : (1 <= List.length client_names)%nat).
  { destruct client_names; [congruence | simpl; lia]. }
  destruct (split_dataset_indices_inv _ _ _ _ _ _ H5) as (sizes & Hsizes & _).
  destruct (partition_when_samples_suffice exp_quota shuffle len_train_data
              (List.length client_names) split_method sizes Hperm HM Hfit Hsizes)
    as (groups' & Hg' & _ & _ & _ & Hp & _).
  rewrite H5 in Hg'. injection Hg' as <-.
  rewrite Hs, flat_map_snd_combine; [exact Hp|].
  now rewrite length_map.
Qed.

Lemma every_sample_in_one_shard_witness :
  inventory_exists flaky_world "inventory.ini" = true /\
  respond flaky_world (cmd_inventory "inventory.ini") = Completed /\
  inventory_stdout flaky_world = parsed (Some (Some ["site-1"; "site-2"]%string)) /\
  ["site-1"; "site-2"]%string <> [] /\
  split_dataset_indices no_exp_quota (@rev nat) 4
                        (List.length ["site-1"; "site-2"]%string) "uniform"
  = Ret [[3; 2]; [1; 0]]%nat /\
  (forall file_path, save_outcome flaky_world file_path = Completed) /\
  (forall l : list nat, Permutation (rev l) l) /\
  (List.length ["site-1"; "site-2"]%string <= 4 + 1)%nat /\
  Permutation
    (flat_map snd
       (train_saves
          (fst (split_and_distribute no_exp_quota (@rev nat) flaky_world
                  4 4 3 3 "inventory.ini" "uniform" "/data"))))
    (seq 0 4).
Proof.
  assert (H1 : inventory_exists flaky_world "inventory.ini" = true) by reflexivity.
  assert (H2 : respond flaky_world (cmd_inventory "inventory.ini") = Completed)
    by reflexivity.
  assert (H3 : inventory_stdout flaky_world
               = parsed (Some (Some ["site-1"; "site-2"]%string))) by reflexivity.
  assert (H4 : ["site-1"; "site-2"]%string <> []) by discriminate.
  assert (H5 : split_dataset_indices no_exp_quota (@rev nat) 4
                 (List.length ["site-1"; "site-2"]%string) "uniform"
               = Ret [[3; 2]; [1; 0]]%nat) by reflexivity.
  assert (H6 : forall file_path, save_outcome flaky_world file_path = Completed)
    by (intros; reflexivity).
  assert (H7 : forall l : list nat, Permutation (rev l) l)
    by (intros l; symmetry; apply Permutation_rev).
  assert (H8 : (List.length ["site-1"; "site-2"]%string <= 4 + 1)%nat) by (simpl; lia).
  repeat (split; [assumption|]).
  exact (every_sample_in_one_shard no_exp_quota (@rev nat) flaky_world 4 3
           "inventory.ini" "uniform" "/data" ["site-1"; "site-2"]%string _
           H1 H2 H3 H4 H5 H6 H7 H8).
Defined.


(** * The script [distribute_splits.py] *)

Section Script.

Import DistributeSplits.

Variable w : env.
Variable a : args.

(** X19.  When the inventory file does not exist, or it has no section
    [nvflare_clients], the script exits with status 1 having only
    printed: no directory is made and no command is run. *)
Theorem script_needs_the_client_group :
  file_exists w (inventory a) = false \/
  read_config w (inventory a) = sections None ->
  snd (main w a) = Exit 1 /\
  Forall (fun e => only_says e = true) (fst (main w a)).
Proof.
  intros H. unfold main.
  destruct (file_exists w (inventory a)); cbn [negb].
  - destruct H as [H|H]; [discriminate H|]. rewrite H.
    split; [reflexivity | repeat constructor].
  - split; [reflexivity | repeat constructor].
Qed.

(** X20.  On every path, a command that the script runs is one of its
    three commands, run in this order and each only when what comes before
    it succeeded: the generator, for as many sites as the section has
    keys, after the local directory was made; the remote [mkdir] after the
    generator returned; the remote copy after the [mkdir] returned too. *)
Theorem script_commands_in_order (argv : list string) :
  In (Exec argv) (fst (main w a)) ->
  exists clients,
    file_exists w (inventory a) = true /\
    read_config w (inventory a) = sections (Some clients) /\
    makedirs w (local_split_dir a (List.length clients)) = true /\
    (argv = cmd_generate a (List.length clients) \/
     (argv = cmd_mkdir a /\
      exec w (cmd_generate a (List.length clients)) = Completed) \/
     (argv = cmd_copy a (List.length clients) /\
      exec w (cmd_generate a (List.length clients)) = Completed /\
      exec w (cmd_mkdir a) = Completed)).
Proof.
  unfold main.
  destruct (file_exists w (inventory a)); cbn [negb].
  2:{ simpl. intros [H|[H|[]]]; discriminate H. }
  destruct (read_config w (inventory a)) as [|[clients|]].
  { simpl. intros [H|[]]; discriminate H. }
  2:{ simpl. intros [H|[H|[]]]; discriminate H. }
  intros H. exists clients. split; [reflexivity|]. split; [reflexivity|].
  revert H. unfold generate.
  destruct (makedirs w (local_split_dir a (List.length clients))); cbn [negb].
  2:{ simpl. intros [H|[H|[H|[H|[]]]]]; discriminate H. }
  split; [reflexivity|]. revert H.
  destruct (exec w (cmd_generate a (List.length clients))) as [|e1] eqn:Eg.
  2:{ destruct e1; simpl; intros H;
        repeat (destruct H as [H|H]; [try discriminate H|]); try contradiction;
        injection H as <-; now left. }
  unfold distribute.
  destruct (exec w (cmd_mkdir a)) as [|e2] eqn:Em.
  2:{ destruct e2; simpl; intros H;
        repeat (destruct H as [H|H]; [try discriminate H|]); try contradiction;
        injection H as <-; first [now left | right; left; now split]. }
  destruct (exec w (cmd_copy a (List.length clients))) as [|e3] eqn:Ec.
  2:{ destruct e3; simpl; intros H;
        repeat (destruct H as [H|H]; [try discriminate H|]); try contradiction;
        injection H as <-;
        first [now left | right; left; now split | right; right; now repeat split]. }
  simpl. intros H.
  repeat (destruct H as [H|H]; [try discriminate H|]); try contradiction;
    injection H as <-;
    first [now left | right; left; now split | right; right; now repeat split].
Qed.

(** X21.  The script finishes normally exactly when the inventory file
    exists, has the section [nvflare_clients], the local directory is made,
    and the generator, the remote [mkdir] and the remote copy all return.
    The section may be empty: the script does not check that it has keys. *)
Theorem script_finishes_iff_all_succeed :
  snd (main w a) = Finished <->
  file_exists w (inventory a) = true /\
  exists clients,
    read_config w (inventory a) = sections (Some clients) /\
    makedirs w (local_split_dir a (List.length clients)) = true /\
    exec w (cmd_generate a (List.length clients)) = Completed /\
    exec w (cmd_mkdir a) = Completed /\
    exec w (cmd_copy a (List.length clients)) = Completed.
Proof.
  unfold main, generate, distribute. split.
  - destruct (file_exists w (inventory a)); cbn [negb]; [|discriminate].
    destruct (read_config w (inventory a)) as [|[clients|]]; try discriminate.
    destruct (makedirs w (local_split_dir a (List.length clients))) eqn:Ed; cbn [negb];
      [|discriminate].
    destruct (exec w (cmd_generate a (List.length clients))) as [|[]] eqn:Eg;
      try discriminate.
    destruct (exec w (cmd_mkdir a)) as [|[]] eqn:Em; try discriminate.
    destruct (exec w (cmd_copy a (List.length clients))) as [|[]] eqn:Ec;
      try discriminate.
    intros _. split; [reflexivity|]. exists clients. repeat split; assumption.
  - intros (Hf & clients & Hc & Hd & Hg & Hm & Hy).
    rewrite Hf, Hc, Hd, Hg, Hm, Hy. reflexivity.
Qed.

Lemma main_exit_status :
  (forall e, snd (main w a) = Uncaught e -> not_a_process_error e) /\
  (forall code, snd (main w a) = Exit code -> code = 1%nat).
Proof.
  unfold main, generate, distribute.
  destruct (file_exists w (inventory a)); cbn [negb].
  2:{ split; intros x H; [discriminate H | now injection H]. }
  destruct (read_config w (inventory a)) as [|[clients|]].
  { split; intros x H; discriminate H. }
  2:{ split; intros x H; [discriminate H | now injection H]. }
  destruct (makedirs w (local_split_dir a (List.length clients))); cbn [negb].
  2:{ split; intros x H; [injection H as <-; exact I | discriminate H]. }
  destruct (exec w (cmd_generate a (List.length clients))) as [|e1].
  2:{ destruct e1; split; intros x H; simpl in H;
        first [discriminate H | injection H as <-; first [exact I | reflexivity]]. }
  destruct (exec w (cmd_mkdir a)) as [|e2].
  2:{ destruct e2; split; intros x H; simpl in H;
        first [discriminate H | injection H as <-; first [exact I | reflexivity]]. }
  destruct (exec w (cmd_copy a (List.length clients))) as [|e3].
  2:{ destruct e3; split; intros x H; simpl in H;
        first [discriminate H | injection H as <-; first [exact I | reflexivity]]. }
  split; intros x H; discriminate H.
Qed.

End Script.

(** X22.  A non-zero exit of any of the three commands never leaves the
    script as an exception -- an exception that ends the script is never a
    [CalledProcessError] -- and when the script exits through [sys.exit],
    the status is 0 for the help, 2 for a command line that
    [parse_args] refuses, and 1 in every other case. *)
Theorem script_exit_status (cl : DistributeSplits.command_line) (w : DistributeSplits.env) :
  (forall e, snd (DistributeSplits.main_of cl w) = DistributeSplits.Uncaught e ->
             not_a_process_error e) /\
  (forall code, snd (DistributeSplits.main_of cl w) = DistributeSplits.Exit code ->
                match cl with
                | DistributeSplits.arguments _ => code = 1%nat
                | DistributeSplits.help_requested => code = 0%nat
                | DistributeSplits.usage_error => code = 2%nat
                end).
Proof.
  destruct cl as [a| |]; cbn [DistributeSplits.main_of snd].
  - apply main_exit_status.
  - split; intros x H; [discriminate H | now injection H].
  - split; intros x H; [discriminate H | now injection H].
Qed.

Lemma script_needs_the_client_group_witness :
  (DistributeSplits.file_exists
     DistributeSplits.no_group_world
     (DistributeSplits.inventory DistributeSplits.example_args) = false \/
   DistributeSplits.read_config
     DistributeSplits.no_group_world
     (DistributeSplits.inventory DistributeSplits.example_args)
   = DistributeSplits.sections None) /\
  snd (DistributeSplits.main
         DistributeSplits.no_group_world
         DistributeSplits.example_args) = DistributeSplits.Exit 1 /\
  Forall (fun e => DistributeSplits.only_says e = true)
    (fst (DistributeSplits.main
            DistributeSplits.no_group_world
            DistributeSplits.example_args)).
Proof.
  assert (H : DistributeSplits.file_exists
                DistributeSplits.no_group_world
                (DistributeSplits.inventory DistributeSplits.example_args) = false \/
              DistributeSplits.read_config
                DistributeSplits.no_group_world
                (DistributeSplits.inventory DistributeSplits.example_args)
              = DistributeSplits.sections None) by (right; reflexivity).
  split; [exact H|].
  exact (script_needs_the_client_group
           DistributeSplits.no_group_world
           DistributeSplits.example_args H).
Defined.

Lemma script_commands_in_order_witness :
  In (DistributeSplits.Exec (DistributeSplits.cmd_copy DistributeSplits.example_args 2))
     (fst (DistributeSplits.main
             DistributeSplits.ready_world
             DistributeSplits.example_args)) /\
  exists clients,
    DistributeSplits.file_exists
      DistributeSplits.ready_world
      (DistributeSplits.inventory DistributeSplits.example_args) = true /\
    DistributeSplits.read_config
      DistributeSplits.ready_world
      (DistributeSplits.inventory DistributeSplits.example_args)
    = DistributeSplits.sections (Some clients) /\
    DistributeSplits.makedirs
      DistributeSplits.ready_world
      (DistributeSplits.local_split_dir DistributeSplits.example_args (List.length clients))
    = true /\
    (DistributeSplits.cmd_copy DistributeSplits.example_args 2
     = DistributeSplits.cmd_generate DistributeSplits.example_args (List.length clients) \/
     (DistributeSplits.cmd_copy DistributeSplits.example_args 2
      = DistributeSplits.cmd_mkdir DistributeSplits.example_args /\
      DistributeSplits.exec
        DistributeSplits.ready_world
        (DistributeSplits.cmd_generate DistributeSplits.example_args (List.length clients))
      = Completed) \/
     (DistributeSplits.cmd_copy DistributeSplits.example_args 2
      = DistributeSplits.cmd_copy DistributeSplits.example_args (List.length clients) /\
      DistributeSplits.exec
        DistributeSplits.ready_world
        (DistributeSplits.cmd_generate DistributeSplits.example_args (List.length clients))
      = Completed /\
      DistributeSplits.exec
        DistributeSplits.ready_world
        (DistributeSplits.cmd_mkdir DistributeSplits.example_args) = Completed)).
Proof.
  assert (H : In (DistributeSplits.Exec
                    (DistributeSplits.cmd_copy DistributeSplits.example_args 2))
                 (fst (DistributeSplits.main
                         DistributeSplits.ready_world
                         DistributeSplits.example_args))).
  { vm_compute. repeat (first [left; reflexivity | right]). }
  split; [exact H|].
  exact (script_commands_in_order
           DistributeSplits.ready_world
           DistributeSplits.example_args _ H).
Defined.
